(** * BusTub buffer pool: a shallow embedding of
      [src/buffer/lru_replacer.cpp] and [src/buffer/buffer_pool_manager.cpp]

    The two translation units are embedded as pure functions over explicit
    state records.  Calls into the disk manager, an external collaborator
    reached through a pointer, are recorded in a call history. *)

From stdpp Require Import gmap list.
From Stdlib Require Import ZArith Lia.

Local Open Scope Z_scope.

(** ** Identifiers and page payloads *)

(** [page_id_t] and [frame_id_t] are both [int32_t] in the sources. *)
Abbreviation page_id_t := Z (only parsing).
Abbreviation frame_id_t := Z (only parsing).

(** Modelled from the spec: the declaration of the sentinel (common/config.h)
    is not among the sources.  "[INVALID_PAGE_ID] is a reserved page id never
    returned by [allocate_page]"; BusTub uses -1. *)
Definition INVALID_PAGE_ID : page_id_t := -1.

(** Modelled from the spec: the page size (common/config.h) is "a fixed
    compile-time constant, uniform across the system". *)
Definition PAGE_SIZE : nat := 4096.

Abbreviation data_t := (list Byte.byte) (only parsing).

(** ** The LRU replacer, [lru_replacer.cpp] *)

Module LRU.

(** [list_frame_id] is the [std::list], front first.  [map_frame_id] maps a
    tracked frame id to the iterator of its list node; as a node is only ever
    reached through the key it stores, the map is represented by its key set
    and "the node of [x]" is the occurrence of [x] in the list.  The internal
    mutex is taken and released inside every method and no method calls
    another locking one, so it is not part of the sequential state. *)
Record LRUReplacer := mkLRU {
  list_frame_id : list frame_id_t;
  map_frame_id : gset frame_id_t;
  maxLen : nat
}.

(** [LRUReplacer::LRUReplacer(size_t num_pages)] *)
Definition new (num_pages : nat) : LRUReplacer := mkLRU [] ∅ num_pages.

(** [LRUReplacer::Size] *)
Definition Size (r : LRUReplacer) : nat := length (list_frame_id r).

(** [LRUReplacer::Victim]: the result is [None] for [false]; otherwise the
    back of the list is removed and written to the out parameter. *)
Definition Victim (r : LRUReplacer) : option frame_id_t * LRUReplacer :=
  match last (list_frame_id r) with
  | None => (None, r)
  | Some pop_front_frame_id =>
      (Some pop_front_frame_id,
       mkLRU (removelast (list_frame_id r))
             (map_frame_id r ∖ {[pop_front_frame_id]})
             (maxLen r))
  end.

(** [list_frame_id.erase(map_frame_id[frame_id])]: unlink the node of
    [frame_id]. *)
Fixpoint erase_node (frame_id : frame_id_t) (l : list frame_id_t) : list frame_id_t :=
  match l with
  | [] => []
  | x :: l' => if decide (x = frame_id) then l' else x :: erase_node frame_id l'
  end.

(** [LRUReplacer::Pin] *)
Definition Pin (r : LRUReplacer) (frame_id : frame_id_t) : LRUReplacer :=
  if decide (frame_id ∈ map_frame_id r)
  then mkLRU (erase_node frame_id (list_frame_id r))
             (map_frame_id r ∖ {[frame_id]})
             (maxLen r)
  else r.

(** The loop [for (; Size() >= maxLen;)] of [Unpin]: it drops the front of
    the list until there is room.  With [maxLen = 0] the condition never
    fails and [front()] is eventually taken of an empty list, which has no
    defined behaviour: [None]. *)
Fixpoint Unpin_loop (maxLen : nat) (l : list frame_id_t) (m : gset frame_id_t)
  : option (list frame_id_t * gset frame_id_t) :=
  if decide (maxLen ≤ length l)%nat then
    match l with
    | [] => None
    | tmp_frame_id :: l' => Unpin_loop maxLen l' (m ∖ {[tmp_frame_id]})
    end
  else Some (l, m).

(** [LRUReplacer::Unpin] *)
Definition Unpin (r : LRUReplacer) (frame_id : frame_id_t) : option LRUReplacer :=
  if decide (frame_id ∈ map_frame_id r) then Some r
  else
    match Unpin_loop (maxLen r) (list_frame_id r) (map_frame_id r) with
    | None => None
    | Some (l, m) => Some (mkLRU (frame_id :: l) ({[frame_id]} ∪ m) (maxLen r))
    end.

(** [unpin(a); unpin(b); unpin(c)] followed by three [victim] calls; the
    three results are returned in call order. *)
Definition unpin3_victim3 (r : LRUReplacer) (a b c : frame_id_t)
  : option (option frame_id_t * option frame_id_t * option frame_id_t) :=
  r1 ← Unpin r a;
  r2 ← Unpin r1 b;
  r3 ← Unpin r2 c;
  let '(v1, r4) := Victim r3 in
  let '(v2, r5) := Victim r4 in
  let '(v3, _) := Victim r5 in
  Some (v1, v2, v3).

(** The two containers describe the same set of frames, each once. *)
Definition coherent (r : LRUReplacer) : Prop :=
  NoDup (list_frame_id r) ∧ ∀ x, x ∈ map_frame_id r ↔ x ∈ list_frame_id r.

(** [unpin] of every frame of [fs], first to last. *)
Fixpoint unpin_all (r : LRUReplacer) (fs : list frame_id_t) : option LRUReplacer :=
  match fs with
  | [] => Some r
  | f :: fs' => r' ← Unpin r f; unpin_all r' fs'
  end.

(** [n] successive [victim] calls, their results in call order. *)
Fixpoint victims (n : nat) (r : LRUReplacer) : list (option frame_id_t) * LRUReplacer :=
  match n with
  | O => ([], r)
  | S n' =>
      let '(v, r') := Victim r in
      let '(vs, r'') := victims n' r' in
      (v :: vs, r'')
  end.

End LRU.

(** ** Frames and the disk manager *)

(** Modelled from the spec: the [Page] class (storage/page/page.h) is not
    among the sources.  A frame slot carries the payload, the id of the
    resident page, the pin count and the dirty bit.  [pin_count_] is an
    [int]; it is kept as an unbounded integer, the overflow of a signed
    counter needing 2^31 outstanding pins on one page. *)
Record Page := mkPage {
  data_ : data_t;
  page_id_ : page_id_t;
  pin_count_ : Z;
  is_dirty_ : bool
}.

Definition zero_data : data_t := replicate PAGE_SIZE Byte.x00.

(** Modelled from the spec: the state of a frame at construction, "all
    zeroed", holding no page. *)
Definition Page_new : Page := mkPage zero_data INVALID_PAGE_ID 0 false.

Definition set_data (d : data_t) (pg : Page) : Page :=
  mkPage d (page_id_ pg) (pin_count_ pg) (is_dirty_ pg).
Definition set_page_id (p : page_id_t) (pg : Page) : Page :=
  mkPage (data_ pg) p (pin_count_ pg) (is_dirty_ pg).
Definition set_pin_count (n : Z) (pg : Page) : Page :=
  mkPage (data_ pg) (page_id_ pg) n (is_dirty_ pg).
Definition set_is_dirty (b : bool) (pg : Page) : Page :=
  mkPage (data_ pg) (page_id_ pg) (pin_count_ pg) b.

(** Modelled from the spec: [Page::ResetMemory] zeroes the payload. *)
Definition ResetMemory (pg : Page) : Page := set_data zero_data pg.

(** A call made on the disk manager, with its arguments; an allocation is
    recorded with the id it returned. *)
Inductive disk_call :=
  | CallReadPage (page_id : page_id_t)
  | CallWritePage (page_id : page_id_t) (page_data : data_t)
  | CallAllocatePage (ret : page_id_t)
  | CallDeallocatePage (page_id : page_id_t).

(** The disk manager is out of scope: what it returns is a function of the
    calls it has received so far (newest first). *)
Class DiskManager := {
  ReadPage_result : list disk_call → page_id_t → data_t;
  AllocatePage_result : list disk_call → page_id_t
}.

(** Page ids handed out by [AllocatePage] and not deallocated since. *)
Fixpoint outstanding (h : list disk_call) : gset page_id_t :=
  match h with
  | [] => ∅
  | CallAllocatePage p :: h' => {[p]} ∪ outstanding h'
  | CallDeallocatePage p :: h' => outstanding h' ∖ {[p]}
  | _ :: h' => outstanding h'
  end.

(** ** The buffer pool manager, [buffer_pool_manager.cpp] *)

(** [latch_] is [true] while the mutex is held.  [disk_manager_] is the
    history of the calls made through the pointer, newest first. *)
Record BufferPoolManager := mkBPM {
  pool_size_ : nat;
  pages_ : list Page;
  replacer_ : LRU.LRUReplacer;
  free_list_ : list frame_id_t;
  page_table_ : gmap page_id_t frame_id_t;
  latch_ : bool;
  disk_manager_ : list disk_call
}.

Definition set_pages (v : list Page) (s : BufferPoolManager) :=
  mkBPM (pool_size_ s) v (replacer_ s) (free_list_ s) (page_table_ s) (latch_ s) (disk_manager_ s).
Definition set_replacer (v : LRU.LRUReplacer) (s : BufferPoolManager) :=
  mkBPM (pool_size_ s) (pages_ s) v (free_list_ s) (page_table_ s) (latch_ s) (disk_manager_ s).
Definition set_free_list (v : list frame_id_t) (s : BufferPoolManager) :=
  mkBPM (pool_size_ s) (pages_ s) (replacer_ s) v (page_table_ s) (latch_ s) (disk_manager_ s).
Definition set_page_table (v : gmap page_id_t frame_id_t) (s : BufferPoolManager) :=
  mkBPM (pool_size_ s) (pages_ s) (replacer_ s) (free_list_ s) v (latch_ s) (disk_manager_ s).
Definition set_latch (v : bool) (s : BufferPoolManager) :=
  mkBPM (pool_size_ s) (pages_ s) (replacer_ s) (free_list_ s) (page_table_ s) v (disk_manager_ s).
Definition set_disk_manager (v : list disk_call) (s : BufferPoolManager) :=
  mkBPM (pool_size_ s) (pages_ s) (replacer_ s) (free_list_ s) (page_table_ s) (latch_ s) v.

(** The result of an operation is [None] when the call does not return
    with a defined state: [lock] on the latch the caller already holds, an
    index outside of [pages_], [front()] of an empty list. *)

(** [latch_.lock()] and [latch_.unlock()] *)
Definition lock (s : BufferPoolManager) : option BufferPoolManager :=
  if latch_ s then None else Some (set_latch true s).
Definition unlock (s : BufferPoolManager) : BufferPoolManager := set_latch false s.

(** [pages_[frame_id]], read and updated in place *)
Definition page_at (s : BufferPoolManager) (frame_id : frame_id_t) : option Page :=
  if decide (0 ≤ frame_id) then pages_ s !! Z.to_nat frame_id else None.
Definition update_page (frame_id : frame_id_t) (f : Page → Page) (s : BufferPoolManager)
  : option BufferPoolManager :=
  pg ← page_at s frame_id;
  Some (set_pages (<[Z.to_nat frame_id := f pg]> (pages_ s)) s).

(** [BufferPoolManager::BufferPoolManager]: every frame starts in the free
    list; [disk_manager] is what the disk manager has been asked before. *)
Definition BufferPoolManager_new (pool_size : nat) (disk_manager : list disk_call)
  : BufferPoolManager :=
  mkBPM pool_size (replicate pool_size Page_new) (LRU.new pool_size)
        (Z.of_nat <$> seq 0 pool_size) ∅ false disk_manager.

(** The search [for (auto i : page_table_) if (i.second == frame_id)] of
    [FetchPageImpl].  The iteration order of an [unordered_map] is not
    specified; [map_to_list] fixes one.  It only matters when two page ids
    are mapped to the same frame. *)
Definition find_page_of_frame (pt : gmap page_id_t frame_id_t) (frame_id : frame_id_t)
  : page_id_t :=
  match list_find (λ i : page_id_t * frame_id_t, i.2 = frame_id) (map_to_list pt) with
  | Some (_, i) => i.1
  | None => INVALID_PAGE_ID
  end.

(** [page_table_.insert(std::pair(k, v))] keeps an existing binding. *)
Definition page_table_insert (k : page_id_t) (v : frame_id_t)
    (pt : gmap page_id_t frame_id_t) : gmap page_id_t frame_id_t :=
  match pt !! k with
  | Some _ => pt
  | None => <[k := v]> pt
  end.

(** [page_table_[k]] creates the binding [k ↦ 0] when [k] is absent. *)
Definition page_table_index (k : page_id_t) (s : BufferPoolManager)
  : frame_id_t * BufferPoolManager :=
  match page_table_ s !! k with
  | Some v => (v, s)
  | None => (0, set_page_table (<[k := 0]> (page_table_ s)) s)
  end.

Section Operations.
Context `{DM : DiskManager}.

(** The four calls through [disk_manager_]. *)
Definition ReadPage (page_id : page_id_t) (s : BufferPoolManager)
  : data_t * BufferPoolManager :=
  (ReadPage_result (disk_manager_ s) page_id,
   set_disk_manager (CallReadPage page_id :: disk_manager_ s) s).
Definition WritePage (page_id : page_id_t) (page_data : data_t) (s : BufferPoolManager)
  : BufferPoolManager :=
  set_disk_manager (CallWritePage page_id page_data :: disk_manager_ s) s.
Definition AllocatePage (s : BufferPoolManager) : page_id_t * BufferPoolManager :=
  let p := AllocatePage_result (disk_manager_ s) in
  (p, set_disk_manager (CallAllocatePage p :: disk_manager_ s) s).
Definition DeallocatePage (page_id : page_id_t) (s : BufferPoolManager)
  : BufferPoolManager :=
  set_disk_manager (CallDeallocatePage page_id :: disk_manager_ s) s.

(** [BufferPoolManager::FetchPageImpl].  The returned [Page *] is given as
    the index of the frame it points to, [None] for [nullptr]. *)
Definition FetchPageImpl (s : BufferPoolManager) (page_id : page_id_t)
  : option (option frame_id_t * BufferPoolManager) :=
  s ← lock s;
  match page_table_ s !! page_id with
  | Some frame_id =>
      let s := set_replacer (LRU.Pin (replacer_ s) frame_id) s in
      s ← update_page frame_id (λ pg, set_pin_count (pin_count_ pg + 1) pg) s;
      Some (Some frame_id, unlock s)
  | None =>
      match free_list_ s with
      | tmp_frame_id :: rest =>
          (* front(), pop_front(); control then leaves the if statement *)
          let s := set_free_list rest s in
          Some (None, unlock s)
      | [] =>
          match LRU.Victim (replacer_ s) with
          | (Some tmp_frame_id, r) =>
              let s := set_replacer r s in
              let tmp_page_id := find_page_of_frame (page_table_ s) tmp_frame_id in
              s ← (if decide (tmp_page_id ≠ INVALID_PAGE_ID) then
                     replace_page ← page_at s tmp_frame_id;
                     s ← (if is_dirty_ replace_page then
                            update_page tmp_frame_id (set_pin_count 0)
                              (WritePage tmp_page_id (data_ replace_page) s)
                          else Some s);
                     Some (set_page_table
                             (delete (page_id_ replace_page) (page_table_ s)) s)
                   else Some s);
              s ← update_page tmp_frame_id (set_page_id page_id) s;
              let s := set_page_table (<[page_id := tmp_frame_id]> (page_table_ s)) s in
              let '(page_data, s) := ReadPage page_id s in
              s ← update_page tmp_frame_id
                    (λ pg, set_is_dirty false
                             (set_pin_count (pin_count_ pg + 1)
                                (set_data page_data pg))) s;
              let s := set_replacer (LRU.Pin (replacer_ s) tmp_frame_id) s in
              Some (Some tmp_frame_id, unlock s)
          | (None, _) => Some (None, unlock s)
          end
      end
  end.

(** [BufferPoolManager::UnpinPageImpl] *)
Definition UnpinPageImpl (s : BufferPoolManager) (page_id : page_id_t) (is_dirty : bool)
  : option (bool * BufferPoolManager) :=
  s ← lock s;
  match page_table_ s !! page_id with
  | None => Some (false, unlock s)
  | Some frame_id =>
      s ← (if is_dirty then update_page frame_id (set_is_dirty true) s else Some s);
      pg ← page_at s frame_id;
      if decide (pin_count_ pg = 0) then Some (false, unlock s)
      else
        let tmp_frame_id := frame_id in
        s ← update_page frame_id (λ pg, set_pin_count (pin_count_ pg - 1) pg) s;
        pg ← page_at s tmp_frame_id;
        s ← (if decide (pin_count_ pg = 0) then
               r ← LRU.Unpin (replacer_ s) tmp_frame_id;
               Some (set_replacer r s)
             else Some s);
        Some (true, unlock s)
  end.

(** [BufferPoolManager::FlushPageImpl] *)
Definition FlushPageImpl (s : BufferPoolManager) (page_id : page_id_t)
  : option (bool * BufferPoolManager) :=
  s ← lock s;
  match page_table_ s !! page_id with
  | None => Some (false, unlock s)
  | Some frame_id =>
      if decide (page_id = INVALID_PAGE_ID) then Some (false, unlock s)
      else
        pg ← page_at s frame_id;
        let s := WritePage page_id (data_ pg) s in
        Some (false, unlock s)
  end.

(** [BufferPoolManager::NewPageImpl].  The result is the id written to the
    out parameter together with the frame, [None] for [nullptr] (the out
    parameter is then left alone). *)
Definition NewPageImpl (s : BufferPoolManager)
  : option (option (page_id_t * frame_id_t) * BufferPoolManager) :=
  s ← lock s;
  let '(tmp_page_id, s) := AllocatePage s in
  '(tmp_frame_id_, s) ←
    match free_list_ s with
    | front :: rest => Some (front, set_free_list rest s)
    | [] =>
        match LRU.Victim (replacer_ s) with
        | (Some victim, r) =>
            let s := set_replacer r s in
            replace_page ← page_at s victim;
            s ← (if is_dirty_ replace_page then
                   update_page victim (set_pin_count 0)
                     (WritePage (page_id_ replace_page) (data_ replace_page) s)
                 else Some s);
            let s := set_page_table (delete (page_id_ replace_page) (page_table_ s)) s in
            s ← update_page victim (set_page_id INVALID_PAGE_ID) s;
            s ← update_page victim ResetMemory s;
            Some (victim, s)
        | (None, _) => Some (-1, s)
        end
    end;
  if decide (tmp_frame_id_ ≠ -1) then
    s ← update_page tmp_frame_id_
          (λ pg, set_pin_count 1 (set_page_id tmp_page_id (set_is_dirty false pg))) s;
    pg ← page_at s tmp_frame_id_;
    let s := WritePage tmp_page_id (data_ pg) s in
    let s := set_page_table (page_table_insert tmp_page_id tmp_frame_id_ (page_table_ s)) s in
    Some (Some (tmp_page_id, tmp_frame_id_), unlock s)
  else Some (None, unlock s).

(** [BufferPoolManager::DeletePageImpl].  The nested [FetchPageImpl] is
    entered with [latch_] held. *)
Definition DeletePageImpl (s : BufferPoolManager) (page_id : page_id_t)
  : option (bool * BufferPoolManager) :=
  s ← lock s;
  match page_table_ s !! page_id with
  | None => Some (true, unlock s)
  | Some frame_id =>
      pg ← page_at s frame_id;
      if decide (pin_count_ pg ≠ 0) then Some (false, unlock s)
      else
        let tmp_frame_id_ := frame_id in
        s ← (if is_dirty_ pg then snd <$> FetchPageImpl s page_id else Some s);
        let s := DeallocatePage page_id s in
        let '(f, s) := page_table_index page_id s in
        s ← update_page f ResetMemory s;
        let '(f, s) := page_table_index page_id s in
        s ← update_page f (set_page_id INVALID_PAGE_ID) s;
        let '(f, s) := page_table_index page_id s in
        s ← update_page f (set_is_dirty false) s;
        let s := set_page_table (delete page_id (page_table_ s)) s in
        let s := set_free_list (free_list_ s ++ [tmp_frame_id_]) s in
        Some (true, unlock s)
  end.

(** [BufferPoolManager::FlushAllPagesImpl] *)
Definition FlushAllPagesImpl (s : BufferPoolManager) : option BufferPoolManager :=
  s ← lock s;
  s ← foldl (λ acc (i : page_id_t * frame_id_t),
               s ← acc;
               pg ← page_at s i.2;
               Some (WritePage i.1 (data_ pg) s))
            (Some s) (map_to_list (page_table_ s));
  Some (unlock s).

End Operations.

(** ** Sequences of public operations *)

Inductive request :=
  | fetch_page (page_id : page_id_t)
  | new_page
  | unpin_page (page_id : page_id_t) (is_dirty : bool)
  | flush_page (page_id : page_id_t)
  | flush_all_pages
  | delete_page (page_id : page_id_t).

Section Requests.
Context `{DM : DiskManager}.

Definition perform (s : BufferPoolManager) (r : request) : option BufferPoolManager :=
  match r with
  | fetch_page p => snd <$> FetchPageImpl s p
  | new_page => snd <$> NewPageImpl s
  | unpin_page p d => snd <$> UnpinPageImpl s p d
  | flush_page p => snd <$> FlushPageImpl s p
  | flush_all_pages => FlushAllPagesImpl s
  | delete_page p => snd <$> DeletePageImpl s p
  end.

Fixpoint perform_all (s : BufferPoolManager) (rs : list request)
  : option BufferPoolManager :=
  match rs with
  | [] => Some s
  | r :: rs' => s' ← perform s r; perform_all s' rs'
  end.

(** The states a freshly constructed pool can be brought to. *)
Definition reachable (s : BufferPoolManager) : Prop :=
  ∃ pool_size rs, perform_all (BufferPoolManager_new pool_size []) rs = Some s.

End Requests.

(** Invariant I4 of the data model: a frame without a page is in the free
    list, unpinned and clean; a frame in the free list holds no page. *)
Definition I4 (s : BufferPoolManager) : Prop :=
  (∀ frame_id pg, page_at s frame_id = Some pg →
     page_id_ pg = INVALID_PAGE_ID →
     frame_id ∈ free_list_ s ∧ pin_count_ pg = 0 ∧ is_dirty_ pg = false) ∧
  (∀ frame_id, frame_id ∈ free_list_ s →
     ∃ pg, page_at s frame_id = Some pg ∧ page_id_ pg = INVALID_PAGE_ID).

(** Every frame named by the page table is a slot of [pages_]. *)
Definition table_in_range (s : BufferPoolManager) : Prop :=
  ∀ p f, page_table_ s !! p = Some f → is_Some (page_at s f).

(** Modelled from the spec: a disk manager (storage/disk/disk_manager.h is
    not among the sources).  [read_page] "fills the buffer with the stored
    contents", zeroes when the page was never written; [allocate_page]
    "returns a fresh id distinct from all outstanding ones", here the number
    of ids handed out so far. *)
Fixpoint stored_contents (h : list disk_call) (page_id : page_id_t) : data_t :=
  match h with
  | [] => zero_data
  | CallWritePage q d :: h' => if decide (q = page_id) then d else stored_contents h' page_id
  | _ :: h' => stored_contents h' page_id
  end.

Fixpoint next_page_id (h : list disk_call) : page_id_t :=
  match h with
  | [] => 0
  | CallAllocatePage _ :: h' => next_page_id h' + 1
  | _ :: h' => next_page_id h'
  end.

Definition file_disk : DiskManager :=
  {| ReadPage_result := stored_contents; AllocatePage_result := next_page_id |}.

(** Concrete pools used as inputs below, all over [file_disk]. *)

(** A pool of one frame, just constructed. *)
Definition pool1 : BufferPoolManager := BufferPoolManager_new 1 [].

(** [pool1] after [new_page]: page 0 sits in frame 0, pinned once. *)
Definition pool1_pinned : BufferPoolManager :=
  mkBPM 1 [mkPage zero_data 0 1 false] (LRU.new 1) [] {[ 0 := 0 ]} false
        [CallWritePage 0 zero_data; CallAllocatePage 0].

(** [pool1_pinned] after [unpin_page(0, false)]: frame 0 is evictable. *)
Definition pool1_unpinned : BufferPoolManager :=
  mkBPM 1 [mkPage zero_data 0 0 false] (LRU.mkLRU [0] {[ 0 ]} 1) [] {[ 0 := 0 ]} false
        [CallWritePage 0 zero_data; CallAllocatePage 0].

(** ** Structural soundness of a pool *)





(** [pool1_pinned] after [unpin_page(0, true)]: frame 0 is evictable and
    dirty. *)
Definition pool1_dirty : BufferPoolManager :=
  mkBPM 1 [mkPage zero_data 0 0 true] (LRU.mkLRU [0] {[ 0 ]} 1) [] {[ 0 := 0 ]} false
        [CallWritePage 0 zero_data; CallAllocatePage 0].

(** A replacer of capacity three that tracks frames 1 and 0, the latter
    for longer. *)
Definition replacer_1_0 : LRU.LRUReplacer := LRU.mkLRU [1; 0] ({[1]} ∪ ({[0]} ∪ ∅)) 3.

(** * Properties *)

(** ** The latch and the frame array *)

Lemma lock_free s : latch_ s = false → lock s = Some (set_latch true s).
Proof. unfold lock. intros ->. reflexivity. Qed.

Lemma lock_held s : latch_ s = true → lock s = None.
Proof. unfold lock. intros ->. reflexivity. Qed.

Lemma unlock_locked s : latch_ s = false → unlock (set_latch true s) = s.
Proof. destruct s. simpl. intros ->. reflexivity. Qed.

Lemma page_at_nonneg s f pg : page_at s f = Some pg → 0 ≤ f.
Proof. unfold page_at. case_decide; [done | discriminate]. Qed.

Lemma page_at_lookup s f pg :
  page_at s f = Some pg → pages_ s !! Z.to_nat f = Some pg.
Proof. unfold page_at. case_decide; [done | discriminate]. Qed.

Lemma update_page_Some s f g pg :
  page_at s f = Some pg →
  update_page f g s = Some (set_pages (<[Z.to_nat f := g pg]> (pages_ s)) s).
Proof. unfold update_page. intros ->. reflexivity. Qed.

Lemma page_at_set_pages_eq s f pg pg' :
  page_at s f = Some pg →
  page_at (set_pages (<[Z.to_nat f := pg']> (pages_ s)) s) f = Some pg'.
Proof.
  intros Hf. pose proof (page_at_nonneg _ _ _ Hf) as Hnn.
  apply page_at_lookup, lookup_lt_Some in Hf.
  unfold page_at. rewrite decide_True by done. simpl.
  by apply list_lookup_insert_eq.
Qed.

Lemma page_at_set_pages_ne s f g pg' :
  0 ≤ f → g ≠ f →
  page_at (set_pages (<[Z.to_nat f := pg']> (pages_ s)) s) g = page_at s g.
Proof.
  intros Hf Hne. unfold page_at. case_decide; [| done]. simpl.
  apply list_lookup_insert_ne. lia.
Qed.

(** The search through the page table does not depend on the iteration
    order when at most one page id is mapped to the frame. *)
Lemma find_page_of_frame_unique (pt : gmap Z Z) p f :
  pt !! p = Some f →
  (∀ q, pt !! q = Some f → q = p) →
  find_page_of_frame pt f = p.
Proof.
  intros Hp Huniq. unfold find_page_of_frame.
  assert (Hin : (p, f) ∈ map_to_list pt) by by apply elem_of_map_to_list.
  destruct (list_find_elem_of (λ i : Z * Z, i.2 = f) _ _ Hin eq_refl)
    as [[i [q g]] Hfind].
  rewrite Hfind. apply list_find_Some in Hfind as (Hlk & Hg & _).
  simpl in *. subst g. apply Huniq, elem_of_map_to_list.
  by eapply list_elem_of_lookup_2.
Qed.

Lemma find_page_of_frame_absent (pt : gmap Z Z) f :
  (∀ q, pt !! q ≠ Some f) →
  find_page_of_frame pt f = INVALID_PAGE_ID.
Proof.
  intros Hnone. unfold find_page_of_frame.
  destruct (list_find _ _) as [[i [q g]] |] eqn:Hfind; [| done].
  apply list_find_Some in Hfind as (Hlk & Hg & _). simpl in *. subst g.
  exfalso. apply (Hnone q), elem_of_map_to_list.
  by eapply list_elem_of_lookup_2.
Qed.

(** ** The replacer *)

Lemma Unpin_loop_room n l m : (length l < n)%nat → LRU.Unpin_loop n l m = Some (l, m).
Proof. intros Hlt. destruct l; simpl in *; rewrite decide_False by lia; done. Qed.

Lemma Unpin_loop_defined n l m : (0 < n)%nat → is_Some (LRU.Unpin_loop n l m).
Proof.
  intros Hn. revert m. induction l as [| x l IH]; intros m; simpl.
  - rewrite decide_False by (simpl; lia). eauto.
  - case_decide; eauto.
Qed.

Lemma Unpin_defined r f : (0 < LRU.maxLen r)%nat → is_Some (LRU.Unpin r f).
Proof.
  intros Hn. unfold LRU.Unpin. case_decide; [eauto |].
  destruct (Unpin_loop_defined (LRU.maxLen r) (LRU.list_frame_id r)
              (LRU.map_frame_id r) Hn) as [[l m] ->].
  eauto.
Qed.

Lemma Unpin_fresh r f :
  f ∉ LRU.map_frame_id r →
  (LRU.Size r < LRU.maxLen r)%nat →
  LRU.Unpin r f =
    Some (LRU.mkLRU (f :: LRU.list_frame_id r) ({[f]} ∪ LRU.map_frame_id r) (LRU.maxLen r)).
Proof.
  intros Hf Hroom. unfold LRU.Unpin. rewrite decide_False by done.
  by rewrite Unpin_loop_room.
Qed.

Lemma Victim_None r : (LRU.Victim r).1 = None → LRU.Victim r = (None, r).
Proof. unfold LRU.Victim. destruct (last _); simpl; [discriminate | done]. Qed.

Lemma Victim_back r l x :
  LRU.list_frame_id r = l ++ [x] →
  LRU.Victim r = (Some x, LRU.mkLRU l (LRU.map_frame_id r ∖ {[x]}) (LRU.maxLen r)).
Proof.
  unfold LRU.Victim. intros ->. rewrite last_snoc.
  by rewrite removelast_last.
Qed.

(** The key set and the list stay in step, which is what lets the key stand
    for the list iterator stored in [map_frame_id]. *)

Lemma erase_node_elem_of f l x :
  NoDup l → x ∈ LRU.erase_node f l ↔ x ∈ l ∧ x ≠ f.
Proof.
  induction 1 as [| y l Hy Hnd IH]; simpl.
  - split; [intros Hin | intros [Hin _]]; by apply not_elem_of_nil in Hin.
  - case_decide as Hyf.
    + subst y. rewrite elem_of_cons. split.
      * intros Hin. split; [by right | intros ->; done].
      * intros [[-> | Hin] Hne]; done.
    + rewrite !elem_of_cons, IH. split.
      * intros [-> | [Hin Hne]]; split; auto.
      * intros [[-> | Hin] Hne]; auto.
Qed.

Lemma erase_node_NoDup f l : NoDup l → NoDup (LRU.erase_node f l).
Proof.
  induction 1 as [| y l Hy Hnd IH]; simpl; [constructor |].
  case_decide; [done |]. constructor; [| done].
  rewrite erase_node_elem_of by done. tauto.
Qed.


Lemma Pin_coherent r f : LRU.coherent r → LRU.coherent (LRU.Pin r f).
Proof.
  intros [Hnd Hkeys]. unfold LRU.Pin. case_decide; [| done].
  split; simpl; [by apply erase_node_NoDup |].
  intros x. rewrite elem_of_difference, elem_of_singleton, Hkeys.
  by rewrite erase_node_elem_of.
Qed.

Lemma Victim_coherent r : LRU.coherent r → LRU.coherent (LRU.Victim r).2.
Proof.
  intros [Hnd Hkeys]. unfold LRU.Victim.
  destruct (last (LRU.list_frame_id r)) as [x |] eqn:Hlast; simpl; [| done].
  apply last_Some in Hlast as [l Hl]. rewrite Hl in *.
  rewrite removelast_last. apply NoDup_app in Hnd as (Hndl & Hx & _).
  split; simpl; [done |].
  intros y. rewrite elem_of_difference, elem_of_singleton, Hkeys, elem_of_app.
  rewrite list_elem_of_singleton. split.
  - intros [[Hin | ->] Hne]; done.
  - intros Hin. split; [by left |]. intros ->. apply (Hx x Hin).
    by apply list_elem_of_singleton.
Qed.

Lemma Unpin_loop_coherent n l m l' m' :
  NoDup l → (∀ x, x ∈ m ↔ x ∈ l) →
  LRU.Unpin_loop n l m = Some (l', m') →
  NoDup l' ∧ (∀ x, x ∈ m' ↔ x ∈ l') ∧ (length l' < n)%nat ∧ l' `suffix_of` l.
Proof.
  intros Hnd. revert m. induction Hnd as [| y l Hy Hnd IH]; intros m Hkeys; simpl.
  - case_decide; [discriminate |]. intros [= <- <-].
    split_and!; [constructor | done | simpl in *; lia | done].
  - case_decide.
    + intros Hloop. apply IH in Hloop as (? & ? & ? & ?).
      * split_and!; [done .. |]. by apply suffix_cons_r.
      * intros x. rewrite elem_of_difference, elem_of_singleton, Hkeys, elem_of_cons.
        split; [intros [[-> | Hin] Hne]; done |].
        intros Hin. split; [by right | intros ->; done].
    + intros [= <- <-].
      split_and!; [by constructor | done | simpl in *; lia | done].
Qed.

Lemma Unpin_coherent r f r' :
  LRU.coherent r → LRU.Unpin r f = Some r' → LRU.coherent r'.
Proof.
  intros [Hnd Hkeys]. unfold LRU.Unpin. case_decide as Hf; [by intros [= <-] |].
  destruct (LRU.Unpin_loop _ _ _) as [[l m] |] eqn:Hloop; [| discriminate].
  intros [= <-].
  apply Unpin_loop_coherent in Hloop as (Hndl & Hkl & _ & Hsuf); [| done ..].
  split; simpl.
  - constructor; [| done]. intros Hin. apply Hf, Hkeys.
    destruct Hsuf as [k ->]. apply elem_of_app. by right.
  - intros x. by rewrite elem_of_union, elem_of_singleton, elem_of_cons, Hkl.
Qed.

(** I6: the replacer never tracks more than [maxLen] frames. *)
Lemma Unpin_size r f r' :
  (LRU.Size r ≤ LRU.maxLen r)%nat →
  LRU.Unpin r f = Some r' →
  (LRU.Size r' ≤ LRU.maxLen r')%nat ∧ LRU.maxLen r' = LRU.maxLen r.
Proof.
  intros Hsz. unfold LRU.Unpin. case_decide; [by intros [= <-] |].
  destruct (LRU.Unpin_loop _ _ _) as [[l m] |] eqn:Hloop; [| discriminate].
  intros [= <-]. unfold LRU.Size. simpl. split; [| done].
  clear Hsz. revert Hloop. generalize (LRU.map_frame_id r).
  induction (LRU.list_frame_id r) as [| y l0 IH]; intros m0; simpl.
  - case_decide; [discriminate |]. intros [= <- <-]. simpl in *. lia.
  - case_decide; [apply IH |]. intros [= <- <-]. simpl in *. lia.
Qed.

(** Membership in a key set built from singletons. *)
Ltac not_tracked :=
  rewrite ?elem_of_union, ?elem_of_singleton, ?elem_of_empty; intuition congruence.

(** C6, as amended.  On a replacer that tracks no frame and whose capacity
    is at least three, [unpin(a)], [unpin(b)], [unpin(c)] of three distinct
    frame ids followed by three [victim] calls return [a], then [b], then
    [c]. *)
Theorem unpin3_victim3_lru_order (r : LRU.LRUReplacer) (a b c : Z) :
  LRU.list_frame_id r = [] →
  LRU.map_frame_id r = ∅ →
  (3 ≤ LRU.maxLen r)%nat →
  a ≠ b → a ≠ c → b ≠ c →
  LRU.unpin3_victim3 r a b c = Some (Some a, Some b, Some c).
Proof.
  intros Hl Hm Hcap Hab Hac Hbc. unfold LRU.unpin3_victim3.
  rewrite Unpin_fresh; [| rewrite Hm; not_tracked | unfold LRU.Size; rewrite Hl; simpl; lia].
  simpl. rewrite Unpin_fresh;
    [| simpl; rewrite Hm; not_tracked | unfold LRU.Size; simpl; rewrite Hl; simpl; lia].
  simpl. rewrite Unpin_fresh;
    [| simpl; rewrite Hm; not_tracked | unfold LRU.Size; simpl; rewrite Hl; simpl; lia].
  simpl. rewrite Hl.
  rewrite (Victim_back _ [c; b] a) by reflexivity.
  rewrite (Victim_back _ [c] b) by reflexivity.
  rewrite (Victim_back _ [] c) by reflexivity.
  reflexivity.
Qed.

Lemma unpin3_victim3_lru_order_witness :
  LRU.unpin3_victim3 (LRU.new 3) 0 1 2 = Some (Some 0, Some 1, Some 2).
Proof.
  apply (unpin3_victim3_lru_order (LRU.new 3) 0 1 2);
    [reflexivity | reflexivity | simpl; lia | lia | lia | lia].
Defined.

(** C6, as stated, fails on a replacer of capacity two: when [c] is
    unpinned the loop of [Unpin] makes room by dropping the front of the
    list, which is [b]; the victims are [a], [c] and then none. *)
Lemma unpin3_victim3_capacity_two :
  LRU.unpin3_victim3 (LRU.new 2) 0 1 2 = Some (Some 0, Some 2, None) ∧
  LRU.unpin3_victim3 (LRU.new 2) 0 1 2 ≠ Some (Some 0, Some 1, Some 2).
Proof. split; [vm_compute; reflexivity | vm_compute; discriminate]. Qed.

(** ** The buffer pool manager *)

Section Properties.
Context `{DM : DiskManager}.

(** A miss while the free list is not empty: the front frame is taken off
    the free list and the call returns [nullptr]; nothing is installed. *)
Lemma FetchPageImpl_miss_free_list s p f rest :
  latch_ s = false →
  page_table_ s !! p = None →
  free_list_ s = f :: rest →
  FetchPageImpl s p = Some (None, set_free_list rest s).
Proof.
  intros Hl Hp Hfl. unfold FetchPageImpl. rewrite lock_free by done. simpl.
  rewrite Hp, Hfl. destruct s; simpl in *; subst; reflexivity.
Qed.

(** A miss while no frame can be obtained. *)
Lemma FetchPageImpl_exhausted s p :
  latch_ s = false →
  page_table_ s !! p = None →
  free_list_ s = [] →
  (LRU.Victim (replacer_ s)).1 = None →
  FetchPageImpl s p = Some (None, s).
Proof.
  intros Hl Hp Hfl Hv. unfold FetchPageImpl. rewrite lock_free by done. simpl.
  rewrite Hp, Hfl, (Victim_None _ Hv). by rewrite unlock_locked.
Qed.

(** C7.  On a hit at frame [f], [fetch_page] pins [f] in the replacer, adds
    one to the pin count of [pages_[f]] and returns that frame; the other
    fields of the frame, the other frames, the page table, the free list and
    the history of disk calls are unchanged. *)
Theorem FetchPageImpl_hit s p f pg :
  latch_ s = false →
  page_table_ s !! p = Some f →
  page_at s f = Some pg →
  ∃ s',
    FetchPageImpl s p = Some (Some f, s') ∧
    replacer_ s' = LRU.Pin (replacer_ s) f ∧
    page_at s' f = Some (set_pin_count (pin_count_ pg + 1) pg) ∧
    (∀ g, g ≠ f → page_at s' g = page_at s g) ∧
    disk_manager_ s' = disk_manager_ s ∧
    page_table_ s' = page_table_ s ∧
    free_list_ s' = free_list_ s ∧
    pool_size_ s' = pool_size_ s ∧
    latch_ s' = false.
Proof.
  intros Hl Hp Hf. pose proof (page_at_nonneg _ _ _ Hf) as Hnn.
  unfold FetchPageImpl. rewrite lock_free by done. simpl. rewrite Hp.
  erewrite update_page_Some by exact Hf. simpl.
  eexists. split; [reflexivity |]. simpl.
  split_and!; try reflexivity.
  - apply (page_at_set_pages_eq s f pg), Hf.
  - intros g Hg. by apply (page_at_set_pages_ne s f g).
Qed.

(** C8.  [unpin_page(p, d)] returns [false] when [p] is not in the page
    table.  Otherwise the dirty bit of the frame is set when [d] holds and
    kept as it is when not; the call then returns [false] if the pin count
    is already zero, and else takes one off the pin count, hands the frame
    to [replacer.unpin] exactly when the count has reached zero, and returns
    [true]. *)
Theorem UnpinPageImpl_spec s p d :
  latch_ s = false →
  (0 < LRU.maxLen (replacer_ s))%nat →
  (page_table_ s !! p = None → UnpinPageImpl s p d = Some (false, s)) ∧
  (∀ f pg,
     page_table_ s !! p = Some f →
     page_at s f = Some pg →
     let pg' := if d then set_is_dirty true pg else pg in
     (pin_count_ pg = 0 →
        UnpinPageImpl s p d =
          Some (false, set_pages (<[Z.to_nat f := pg']> (pages_ s)) s)) ∧
     (pin_count_ pg ≠ 0 →
        ∃ r',
          (if decide (pin_count_ pg - 1 = 0)
           then LRU.Unpin (replacer_ s) f = Some r'
           else r' = replacer_ s) ∧
          UnpinPageImpl s p d =
            Some (true,
                  set_replacer r'
                    (set_pages
                       (<[Z.to_nat f := set_pin_count (pin_count_ pg - 1) pg']> (pages_ s))
                       s)))).
Proof.
  intros Hl Hcap. split.
  - intros Hp. unfold UnpinPageImpl. rewrite lock_free by done. simpl.
    rewrite Hp. by rewrite unlock_locked.
  - intros f pg Hp Hf pg'.
    pose proof (page_at_lookup _ _ _ Hf) as Hlk.
    pose proof (page_at_nonneg _ _ _ Hf) as Hnn.
    assert (Hf' : ∀ l, page_at (set_latch l s) f = Some pg) by (intros; exact Hf).
    (* the state after the dirty bit has been dealt with *)
    set (s1 := set_pages (<[Z.to_nat f := pg']> (pages_ s)) (set_latch true s)).
    assert (Hs1 : (if d then update_page f (set_is_dirty true) (set_latch true s)
                   else Some (set_latch true s)) = Some s1).
    { subst s1 pg'. destruct d.
      - by erewrite update_page_Some by apply Hf'.
      - f_equal. destruct s; simpl in *. unfold set_pages; simpl.
        by rewrite list_insert_id. }
    assert (Hs1f : page_at s1 f = Some pg')
      by apply (page_at_set_pages_eq (set_latch true s) f pg), Hf'.
    assert (Hpin : pin_count_ pg' = pin_count_ pg) by (subst pg'; by destruct d).
    unfold UnpinPageImpl. rewrite lock_free by done. simpl. rewrite Hp, Hs1. simpl.
    rewrite Hs1f. simpl. rewrite Hpin.
    split; intros Hc.
    + rewrite decide_True by done. f_equal. f_equal.
      subst s1. destruct s; simpl in *; subst; reflexivity.
    + rewrite decide_False by done.
      erewrite update_page_Some by exact Hs1f. simpl.
      rewrite (page_at_set_pages_eq s1 f pg') by exact Hs1f. simpl.
      rewrite Hpin.
      rewrite list_insert_insert_eq.
      case_decide as Hz.
      * destruct (Unpin_defined (replacer_ s) f Hcap) as [r' Hr'].
        exists r'. split; [done |].
        subst s1. simpl. rewrite Hr'. simpl.
        destruct s; simpl in *; subst; reflexivity.
      * exists (replacer_ s). split; [done |]. simpl.
        subst s1. destruct s; simpl in *; subst; reflexivity.
Qed.

(** What [flush_page] does, path by path. *)
Lemma FlushPageImpl_rejected s p :
  latch_ s = false →
  page_table_ s !! p = None ∨ p = INVALID_PAGE_ID →
  FlushPageImpl s p = Some (false, s).
Proof.
  intros Hl Hp. unfold FlushPageImpl. rewrite lock_free by done. simpl.
  destruct (page_table_ s !! p) as [f |] eqn:Hlk.
  - destruct Hp as [Hp | Hp]; [discriminate |].
    rewrite decide_True by done. by rewrite unlock_locked.
  - by rewrite unlock_locked.
Qed.

Lemma FlushPageImpl_written s p f pg :
  latch_ s = false →
  page_table_ s !! p = Some f →
  p ≠ INVALID_PAGE_ID →
  page_at s f = Some pg →
  FlushPageImpl s p = Some (false, WritePage p (data_ pg) s).
Proof.
  intros Hl Hp Hne Hf. unfold FlushPageImpl. rewrite lock_free by done. simpl.
  rewrite Hp, decide_False by done.
  replace (page_at (set_latch true s) f) with (page_at s f) by reflexivity.
  rewrite Hf. simpl. destruct s; simpl in *; subst; reflexivity.
Qed.

(** C10.  [flush_page(p)] returns, and whatever it returns the page table,
    the free list, the replacer and every frame (page id, pin count, dirty
    bit and payload) are the same after the call as before; the dirty bit
    of a flushed page is therefore not cleared. *)
Theorem FlushPageImpl_frame s p :
  latch_ s = false →
  table_in_range s →
  ∃ b s',
    FlushPageImpl s p = Some (b, s') ∧
    page_table_ s' = page_table_ s ∧
    free_list_ s' = free_list_ s ∧
    replacer_ s' = replacer_ s ∧
    pages_ s' = pages_ s ∧
    (∀ f, page_at s' f = page_at s f) ∧
    latch_ s' = latch_ s.
Proof.
  intros Hl Hrange.
  destruct (page_table_ s !! p) as [f |] eqn:Hp.
  - destruct (decide (p = INVALID_PAGE_ID)) as [Hi | Hi].
    + exists false, s. rewrite FlushPageImpl_rejected by auto. done.
    + destruct (Hrange p f Hp) as [pg Hf].
      exists false, (WritePage p (data_ pg) s).
      rewrite (FlushPageImpl_written s p f pg) by done. done.
  - exists false, s. rewrite FlushPageImpl_rejected by auto. done.
Qed.

(** [delete_page] of a page that is not resident: the call returns [true]
    and the state, the history of disk calls included, is left as it was. *)
Lemma DeletePageImpl_absent s p :
  latch_ s = false →
  page_table_ s !! p = None →
  DeletePageImpl s p = Some (true, s).
Proof.
  intros Hl Hp. unfold DeletePageImpl. rewrite lock_free by done. simpl.
  rewrite Hp. by rewrite unlock_locked.
Qed.

(** [latch_] is not recursive: [fetch_page] entered with the latch held
    blocks on [lock]. *)
Lemma FetchPageImpl_latch_held s p : latch_ s = true → FetchPageImpl s p = None.
Proof. intros Hl. unfold FetchPageImpl. by rewrite lock_held. Qed.

(** [delete_page] of an unpinned dirty page enters [fetch_page] with the
    latch held and does not come back. *)
Lemma DeletePageImpl_dirty s p f pg :
  latch_ s = false →
  page_table_ s !! p = Some f →
  page_at s f = Some pg →
  pin_count_ pg = 0 →
  is_dirty_ pg = true →
  DeletePageImpl s p = None.
Proof.
  intros Hl Hp Hf Hpin Hd. unfold DeletePageImpl. rewrite lock_free by done.
  cbn [mbind option_bind]. change (page_table_ (set_latch true s)) with (page_table_ s).
  rewrite Hp.
  replace (page_at (set_latch true s) f) with (page_at s f) by reflexivity.
  rewrite Hf. cbn [mbind option_bind]. rewrite decide_False by (intros Hc; by apply Hc).
  rewrite Hd. by rewrite FetchPageImpl_latch_held.
Qed.

(** C5, as amended.  When the free list is empty and the replacer has no
    victim, [new_page] returns "none" and leaves the frames, the page table,
    the free list and the replacer as they were; [allocate_page] has been
    called once, before the search for a frame, and the id it returned is
    not deallocated. *)
Theorem NewPageImpl_exhausted s :
  latch_ s = false →
  free_list_ s = [] →
  (LRU.Victim (replacer_ s)).1 = None →
  NewPageImpl s =
    Some (None,
          set_disk_manager
            (CallAllocatePage (AllocatePage_result (disk_manager_ s)) :: disk_manager_ s)
            s).
Proof.
  intros Hl Hfl Hv. unfold NewPageImpl. rewrite lock_free by done. simpl.
  rewrite Hfl, (Victim_None _ Hv). simpl.
  destruct s; simpl in *; subst; reflexivity.
Qed.

(** C9, as amended.  [fetch_page] has no test for [INVALID_PAGE_ID].  When
    [INVALID_PAGE_ID] is not in the page table, the free list is empty and
    the replacer has no victim, [fetch_page(INVALID_PAGE_ID)] returns "none"
    and leaves the whole state of the pool unchanged. *)
Theorem FetchPageImpl_invalid_exhausted s :
  latch_ s = false →
  page_table_ s !! INVALID_PAGE_ID = None →
  free_list_ s = [] →
  (LRU.Victim (replacer_ s)).1 = None →
  FetchPageImpl s INVALID_PAGE_ID = Some (None, s).
Proof. apply FetchPageImpl_exhausted. Qed.

End Properties.

(** ** Concrete pools *)

Lemma pool1_pinned_reachable : reachable (DM := file_disk) pool1_pinned.
Proof. exists 1%nat, [new_page]. vm_compute. reflexivity. Qed.


Lemma pool1_pinned_in_range : table_in_range pool1_pinned.
Proof.
  intros p f Hlk. simpl in Hlk. apply lookup_singleton_Some in Hlk as [_ <-].
  eexists. reflexivity.
Qed.

(** C1, at a failing input.  In a pool of one frame that was just
    constructed, page 7 is not resident and frame 0 is free, yet
    [fetch_page(7)] returns [nullptr]: frame 0 has left the free list, holds
    no page and is not pinned, the page table has no entry for 7 and the
    disk manager was not asked to read. *)
Theorem fetch_miss_free_frame_not_installed :
  page_table_ pool1 !! 7 = None ∧
  free_list_ pool1 = [0] ∧
  ∃ s',
    FetchPageImpl (DM := file_disk) pool1 7 = Some (None, s') ∧
    page_at s' 0 = Some Page_new ∧
    page_table_ s' !! 7 = None ∧
    free_list_ s' = [] ∧
    disk_manager_ s' = [].
Proof.
  split_and!; [reflexivity | reflexivity |].
  exists (set_free_list [] pool1).
  rewrite (FetchPageImpl_miss_free_list pool1 7 0 []) by reflexivity.
  split_and!; reflexivity.
Qed.

Lemma I4_pool1 : I4 pool1.
Proof.
  split.
  - intros f pg Hf _. pose proof (page_at_nonneg _ _ _ Hf) as Hnn.
    apply page_at_lookup in Hf. simpl in Hf.
    destruct (Z.to_nat f) as [| n] eqn:Hn; simpl in Hf; [| discriminate].
    injection Hf as <-. assert (f = 0) as -> by lia.
    split_and!; [| reflexivity | reflexivity].
    simpl. apply list_elem_of_singleton. reflexivity.
  - intros f Hin. simpl in Hin. apply list_elem_of_singleton in Hin as ->.
    exists Page_new. split; reflexivity.
Qed.

(** C2, at a failing input.  I4 holds in a pool of one frame that was just
    constructed; after [fetch_page(7)] frame 0 still holds no page but is no
    longer in the free list, so I4 fails in a reachable state. *)
Theorem I4_lost_after_fetch_miss :
  I4 pool1 ∧
  perform (DM := file_disk) pool1 (fetch_page 7) = Some (set_free_list [] pool1) ∧
  reachable (DM := file_disk) (set_free_list [] pool1) ∧
  ¬ I4 (set_free_list [] pool1).
Proof.
  split_and!.
  - exact I4_pool1.
  - unfold perform.
    by rewrite (FetchPageImpl_miss_free_list pool1 7 0 []).
  - exists 1%nat, [fetch_page 7]. simpl.
    by rewrite (FetchPageImpl_miss_free_list _ 7 0 []).
  - intros [Hfree _].
    destruct (Hfree 0 Page_new eq_refl eq_refl) as [Hin _].
    simpl in Hin. by apply not_elem_of_nil in Hin.
Qed.

(** C3, at a failing input.  Page 0 is resident in frame 0 of
    [pool1_pinned]; [flush_page(0)] writes the frame to disk and returns
    [false]. *)
Theorem flush_resident_page_returns_false :
  page_table_ pool1_pinned !! 0 = Some 0 ∧
  0 ≠ INVALID_PAGE_ID ∧
  FlushPageImpl pool1_pinned 0 =
    Some (false,
          set_disk_manager (CallWritePage 0 zero_data :: disk_manager_ pool1_pinned)
            pool1_pinned).
Proof.
  split_and!; [reflexivity | discriminate |].
  by rewrite (FlushPageImpl_written pool1_pinned 0 0 (mkPage zero_data 0 1 false)).
Qed.

(** C4, at a failing input.  Page 7 is not resident in [pool1];
    [delete_page(7)] returns [true] and the disk manager has not been asked
    to deallocate anything. *)
Theorem delete_absent_page_not_deallocated :
  page_table_ pool1 !! 7 = None ∧
  ∃ s',
    DeletePageImpl (DM := file_disk) pool1 7 = Some (true, s') ∧
    CallDeallocatePage 7 ∉ disk_manager_ s'.
Proof.
  split; [reflexivity |]. exists pool1.
  rewrite (DeletePageImpl_absent pool1 7) by reflexivity.
  split; [reflexivity |]. simpl. apply not_elem_of_nil.
Qed.

(** C5, as stated, fails in [pool1_pinned]: the only frame is pinned, so
    [new_page] returns "none"; it has by then obtained page id 1 from
    [allocate_page] and does not give it back, so the set of outstanding
    page ids has grown. *)
Lemma new_page_failure_keeps_allocated_id :
  free_list_ pool1_pinned = [] ∧
  (LRU.Victim (replacer_ pool1_pinned)).1 = None ∧
  ∃ s',
    NewPageImpl (DM := file_disk) pool1_pinned = Some (None, s') ∧
    disk_manager_ s' = CallAllocatePage 1 :: disk_manager_ pool1_pinned ∧
    outstanding (disk_manager_ s') ≠ outstanding (disk_manager_ pool1_pinned).
Proof.
  split_and!; [reflexivity | reflexivity |].
  eexists. split; [vm_compute; reflexivity |]. split; [reflexivity |].
  simpl. intros Heq.
  assert (Hin : 1 ∈ ({[1]} ∪ ({[0]} ∪ ∅) : gset Z)) by not_tracked.
  rewrite Heq in Hin. revert Hin. not_tracked.
Qed.

Lemma NewPageImpl_exhausted_witness :
  latch_ pool1_pinned = false ∧
  free_list_ pool1_pinned = [] ∧
  (LRU.Victim (replacer_ pool1_pinned)).1 = None ∧
  NewPageImpl (DM := file_disk) pool1_pinned =
    Some (None,
          set_disk_manager (CallAllocatePage 1 :: disk_manager_ pool1_pinned)
            pool1_pinned).
Proof.
  split_and!; [reflexivity | reflexivity | reflexivity |].
  apply (NewPageImpl_exhausted (DM := file_disk) pool1_pinned); reflexivity.
Defined.

(** C9, as stated, fails in [pool1_unpinned]: the free list is empty and
    frame 0 is evictable, so [fetch_page(INVALID_PAGE_ID)] takes frame 0 as
    victim, installs [INVALID_PAGE_ID] in it and in the page table, reads
    from disk and returns the frame. *)
Lemma fetch_invalid_installs_in_victim :
  ∃ s',
    FetchPageImpl (DM := file_disk) pool1_unpinned INVALID_PAGE_ID = Some (Some 0, s') ∧
    page_at s' 0 = Some (mkPage zero_data INVALID_PAGE_ID 1 false) ∧
    page_table_ s' = {[ INVALID_PAGE_ID := 0 ]} ∧
    disk_manager_ s' = CallReadPage INVALID_PAGE_ID :: disk_manager_ pool1_unpinned ∧
    FetchPageImpl (DM := file_disk) pool1_unpinned INVALID_PAGE_ID
      ≠ Some (None, pool1_unpinned).
Proof.
  eexists. split; [vm_compute; reflexivity |].
  split_and!; [vm_compute; reflexivity .. |].
  vm_compute. discriminate.
Qed.

Lemma FetchPageImpl_invalid_exhausted_witness :
  latch_ pool1_pinned = false ∧
  page_table_ pool1_pinned !! INVALID_PAGE_ID = None ∧
  free_list_ pool1_pinned = [] ∧
  (LRU.Victim (replacer_ pool1_pinned)).1 = None ∧
  FetchPageImpl (DM := file_disk) pool1_pinned INVALID_PAGE_ID = Some (None, pool1_pinned).
Proof.
  split_and!; [reflexivity | reflexivity | reflexivity | reflexivity |].
  apply (FetchPageImpl_invalid_exhausted (DM := file_disk) pool1_pinned); reflexivity.
Defined.

Lemma FetchPageImpl_hit_witness :
  latch_ pool1_pinned = false ∧
  page_table_ pool1_pinned !! 0 = Some 0 ∧
  page_at pool1_pinned 0 = Some (mkPage zero_data 0 1 false) ∧
  ∃ s',
    FetchPageImpl (DM := file_disk) pool1_pinned 0 = Some (Some 0, s') ∧
    replacer_ s' = LRU.Pin (replacer_ pool1_pinned) 0 ∧
    page_at s' 0 = Some (mkPage zero_data 0 2 false) ∧
    (∀ g, g ≠ 0 → page_at s' g = page_at pool1_pinned g) ∧
    disk_manager_ s' = disk_manager_ pool1_pinned ∧
    page_table_ s' = page_table_ pool1_pinned ∧
    free_list_ s' = free_list_ pool1_pinned ∧
    pool_size_ s' = pool_size_ pool1_pinned ∧
    latch_ s' = false.
Proof.
  split_and!; [reflexivity | reflexivity | reflexivity |].
  apply (FetchPageImpl_hit (DM := file_disk) pool1_pinned 0 0
           (mkPage zero_data 0 1 false)); reflexivity.
Defined.

Lemma UnpinPageImpl_spec_witness :
  latch_ pool1_pinned = false ∧
  (0 < LRU.maxLen (replacer_ pool1_pinned))%nat ∧
  UnpinPageImpl pool1_pinned 7 false = Some (false, pool1_pinned) ∧
  UnpinPageImpl pool1_pinned 0 false = Some (true, pool1_unpinned) ∧
  UnpinPageImpl pool1_unpinned 0 true =
    Some (false, set_pages [mkPage zero_data 0 0 true] pool1_unpinned).
Proof.
  assert (Hcap : (0 < 1)%nat) by lia.
  split_and!; [reflexivity | exact Hcap | | |].
  - destruct (UnpinPageImpl_spec pool1_pinned 7 false eq_refl Hcap) as [Habsent _].
    apply Habsent. reflexivity.
  - destruct (UnpinPageImpl_spec pool1_pinned 0 false eq_refl Hcap) as [_ Hres].
    destruct (Hres 0 (mkPage zero_data 0 1 false) eq_refl eq_refl) as [_ Hdec].
    destruct (Hdec ltac:(discriminate)) as (r' & Hr' & Heq).
    rewrite Heq. simpl in Hr'. injection Hr' as <-. reflexivity.
  - destruct (UnpinPageImpl_spec pool1_unpinned 0 true eq_refl Hcap) as [_ Hres].
    destruct (Hres 0 (mkPage zero_data 0 0 false) eq_refl eq_refl) as [Hzero _].
    apply Hzero. reflexivity.
Defined.

Lemma FlushPageImpl_frame_witness :
  latch_ pool1_pinned = false ∧
  table_in_range pool1_pinned ∧
  ∃ b s',
    FlushPageImpl pool1_pinned 0 = Some (b, s') ∧
    page_table_ s' = page_table_ pool1_pinned ∧
    free_list_ s' = free_list_ pool1_pinned ∧
    replacer_ s' = replacer_ pool1_pinned ∧
    pages_ s' = pages_ pool1_pinned ∧
    (∀ f, page_at s' f = page_at pool1_pinned f) ∧
    latch_ s' = latch_ pool1_pinned.
Proof.
  split_and!; [reflexivity | exact pool1_pinned_in_range |].
  apply (FlushPageImpl_frame pool1_pinned 0); [reflexivity | exact pool1_pinned_in_range].
Defined.

(** ** The literal scenarios of the specification, pool of three frames *)

(** Cold fetch: three [new_page] calls fill frames 0, 1 and 2 with pages 0,
    1 and 2, each pinned once; a fourth call finds no frame. *)
Example cold_fetch_scenario :
  ∃ s,
    perform_all (DM := file_disk) (BufferPoolManager_new 3 [])
      [new_page; new_page; new_page] = Some s ∧
    (λ pg, (page_id_ pg, pin_count_ pg)) <$> pages_ s = [(0, 1); (1, 1); (2, 1)] ∧
    fst <$> NewPageImpl (DM := file_disk) s = Some None.
Proof.
  eexists. split; [vm_compute; reflexivity |].
  split; vm_compute; reflexivity.
Qed.

(** Eviction: once page 0 is unpinned, [new_page] puts page 3 in frame 0. *)
Example eviction_scenario :
  ∃ s,
    perform_all (DM := file_disk) (BufferPoolManager_new 3 [])
      [new_page; new_page; new_page; unpin_page 0 false] = Some s ∧
    fst <$> NewPageImpl (DM := file_disk) s = Some (Some (3, 0)).
Proof. eexists. split; vm_compute; reflexivity. Qed.

(** Delete while pinned: refused until the pin is released. *)
Example delete_while_pinned_scenario :
  ∃ s s',
    perform_all (DM := file_disk) (BufferPoolManager_new 3 []) [new_page] = Some s ∧
    fst <$> DeletePageImpl (DM := file_disk) s 0 = Some false ∧
    perform (DM := file_disk) s (unpin_page 0 false) = Some s' ∧
    fst <$> DeletePageImpl (DM := file_disk) s' 0 = Some true.
Proof. do 2 eexists. split_and!; vm_compute; reflexivity. Qed.

(** * Further properties of the replacer *)

Lemma filter_ne_absent (f : Z) (l : list Z) : f ∉ l → filter (λ x, x ≠ f) l = l.
Proof.
  induction l as [| y l IH]; [done |]. intros Hf.
  apply not_elem_of_cons in Hf as [Hne Hf].
  rewrite filter_cons_True by done. by rewrite IH.
Qed.

Lemma erase_node_filter f l :
  NoDup l → LRU.erase_node f l = filter (λ x, x ≠ f) l.
Proof.
  induction 1 as [| y l Hy Hnd IH]; simpl; [done |].
  case_decide as Hyf.
  - subst y. rewrite filter_cons_False by (intros Hc; by apply Hc).
    by rewrite filter_ne_absent.
  - rewrite filter_cons_True by done. by rewrite IH.
Qed.

Lemma erase_node_length f l : (length (LRU.erase_node f l) ≤ length l)%nat.
Proof. induction l as [| y l IH]; simpl; [lia |]. case_decide; simpl; lia. Qed.

Lemma Unpin_loop_bound n l m l' m' :
  LRU.Unpin_loop n l m = Some (l', m') → (length l' < n)%nat.
Proof.
  revert m. induction l as [| y l IH]; intros m; simpl.
  - case_decide; [discriminate |]. intros [= <- <-]. simpl in *. lia.
  - case_decide; [apply IH |]. intros [= <- <-]. simpl in *. lia.
Qed.

Lemma Pin_maxLen r f : LRU.maxLen (LRU.Pin r f) = LRU.maxLen r.
Proof. unfold LRU.Pin. by case_decide. Qed.

Lemma Victim_maxLen r : LRU.maxLen (LRU.Victim r).2 = LRU.maxLen r.
Proof. unfold LRU.Victim. by destruct (last _). Qed.


Lemma replacer_1_0_unpinned : LRU.unpin_all (LRU.new 3) [0; 1] = Some replacer_1_0.
Proof. reflexivity. Qed.

Lemma replacer_1_0_coherent : LRU.coherent replacer_1_0.
Proof.
  split; simpl.
  - apply NoDup_cons. split; [| apply NoDup_singleton].
    rewrite list_elem_of_singleton. discriminate.
  - intros x. rewrite !elem_of_union, !elem_of_singleton, elem_of_empty.
    rewrite !elem_of_cons. split; [intros [-> | [-> | []]]; auto |].
    intros [-> | [-> | Hin]]; auto. by apply not_elem_of_nil in Hin.
Qed.

(** X1.  The list and the key set of the replacer stay in step under every
    operation: if each tracked frame has one list node and one key, that
    is still so after [Pin], after [Victim] and after an [Unpin] that
    returns. *)
Theorem replacer_coherence_kept r f :
  LRU.coherent r →
  LRU.coherent (LRU.Pin r f) ∧
  LRU.coherent (LRU.Victim r).2 ∧
  (∀ r', LRU.Unpin r f = Some r' → LRU.coherent r').
Proof.
  intros Hc. split_and!.
  - by apply Pin_coherent.
  - by apply Victim_coherent.
  - intros r' Hr'. by eapply Unpin_coherent.
Qed.

Lemma replacer_coherence_kept_witness :
  LRU.coherent replacer_1_0 ∧
  LRU.coherent (LRU.Pin replacer_1_0 0) ∧
  LRU.coherent (LRU.Victim replacer_1_0).2 ∧
  (∀ r', LRU.Unpin replacer_1_0 0 = Some r' → LRU.coherent r').
Proof.
  split; [exact replacer_1_0_coherent |].
  apply (replacer_coherence_kept replacer_1_0 0). exact replacer_1_0_coherent.
Defined.

(** X2.  No operation lets the replacer grow past its capacity: when
    [Size() <= maxLen] holds before [Pin], [Victim] or [Unpin], it holds
    afterwards, and [maxLen] never changes. *)
Theorem replacer_capacity_kept r f :
  (LRU.Size r ≤ LRU.maxLen r)%nat →
  (LRU.Size (LRU.Pin r f) ≤ LRU.maxLen (LRU.Pin r f))%nat ∧
  (LRU.Size (LRU.Victim r).2 ≤ LRU.maxLen (LRU.Victim r).2)%nat ∧
  (∀ r', LRU.Unpin r f = Some r' → (LRU.Size r' ≤ LRU.maxLen r')%nat).
Proof.
  intros Hsz. split_and!.
  - rewrite Pin_maxLen. unfold LRU.Pin, LRU.Size in *. case_decide; [| done].
    simpl. pose proof (erase_node_length f (LRU.list_frame_id r)). lia.
  - rewrite Victim_maxLen. unfold LRU.Victim, LRU.Size in *.
    destruct (last (LRU.list_frame_id r)) as [x |] eqn:Hlast; simpl; [| done].
    apply last_Some in Hlast as [l Hl]. rewrite Hl in *.
    rewrite removelast_last. rewrite length_app in Hsz. lia.
  - intros r' Hr'. by apply (Unpin_size r f r').
Qed.

Lemma replacer_capacity_kept_witness :
  (LRU.Size replacer_1_0 ≤ LRU.maxLen replacer_1_0)%nat ∧
  (LRU.Size (LRU.Pin replacer_1_0 0) ≤ LRU.maxLen (LRU.Pin replacer_1_0 0))%nat ∧
  (LRU.Size (LRU.Victim replacer_1_0).2 ≤ LRU.maxLen (LRU.Victim replacer_1_0).2)%nat ∧
  (∀ r', LRU.Unpin replacer_1_0 0 = Some r' → (LRU.Size r' ≤ LRU.maxLen r')%nat).
Proof.
  assert (Hsz : (LRU.Size replacer_1_0 ≤ LRU.maxLen replacer_1_0)%nat)
    by (unfold LRU.Size; simpl; lia).
  split; [exact Hsz |].
  apply (replacer_capacity_kept replacer_1_0 0). exact Hsz.
Defined.

(** X3.  [Unpin] is idempotent: once [Unpin(f)] has returned, [f] is
    tracked and a second [Unpin(f)] changes nothing. *)
Theorem Unpin_idempotent r f r' :
  LRU.Unpin r f = Some r' →
  f ∈ LRU.map_frame_id r' ∧ LRU.Unpin r' f = Some r'.
Proof.
  intros Hr'.
  assert (Hin : f ∈ LRU.map_frame_id r').
  { revert Hr'. unfold LRU.Unpin. case_decide as Hf; [by intros [= <-] |].
    destruct (LRU.Unpin_loop _ _ _) as [[l m] |]; [| discriminate].
    intros [= <-]. simpl. apply elem_of_union. left. by apply elem_of_singleton. }
  split; [done |]. unfold LRU.Unpin. by rewrite decide_True.
Qed.

Lemma Unpin_idempotent_witness :
  LRU.Unpin (LRU.new 3) 0 = Some (LRU.mkLRU [0] ({[0]} ∪ ∅) 3) ∧
  0 ∈ LRU.map_frame_id (LRU.mkLRU [0] ({[0]} ∪ ∅) 3) ∧
  LRU.Unpin (LRU.mkLRU [0] ({[0]} ∪ ∅) 3) 0 = Some (LRU.mkLRU [0] ({[0]} ∪ ∅) 3).
Proof.
  split; [reflexivity |].
  apply (Unpin_idempotent (LRU.new 3) 0). reflexivity.
Defined.

(** X4.  [Pin] undoes [Unpin]: when [f] is not tracked and the replacer has
    room, [Unpin(f)] followed by [Pin(f)] gives back the replacer one
    started from. *)
Theorem Pin_undoes_Unpin r f :
  f ∉ LRU.map_frame_id r →
  (LRU.Size r < LRU.maxLen r)%nat →
  ∃ r', LRU.Unpin r f = Some r' ∧ LRU.Pin r' f = r.
Proof.
  intros Hf Hroom. eexists. split; [by apply Unpin_fresh |].
  unfold LRU.Pin. simpl.
  rewrite decide_True by (apply elem_of_union; left; by apply elem_of_singleton).
  simpl. rewrite decide_True by done.
  destruct r as [l m n]. simpl in *. f_equal.
  apply set_eq. intros x.
  rewrite elem_of_difference, elem_of_union, elem_of_singleton.
  split; [intros [[-> | Hx] Hne]; done |].
  intros Hx. split; [by right | intros ->; done].
Qed.

Lemma Pin_undoes_Unpin_witness :
  (2 ∉ LRU.map_frame_id replacer_1_0) ∧
  (LRU.Size replacer_1_0 < LRU.maxLen replacer_1_0)%nat ∧
  ∃ r', LRU.Unpin replacer_1_0 2 = Some r' ∧ LRU.Pin r' 2 = replacer_1_0.
Proof.
  assert (H2 : 2 ∉ LRU.map_frame_id replacer_1_0) by (simpl; not_tracked).
  assert (Hroom : (LRU.Size replacer_1_0 < LRU.maxLen replacer_1_0)%nat)
    by (unfold LRU.Size; simpl; lia).
  split_and!; [exact H2 | exact Hroom |].
  apply (Pin_undoes_Unpin replacer_1_0 2); [exact H2 | exact Hroom].
Defined.

(** X5.  [Pin(f)] takes [f], and only [f], out of the replacer: the other
    frames stay tracked, in the same order.  For an untracked [f] this is a
    no-op. *)
Theorem Pin_keeps_order r f :
  LRU.coherent r →
  LRU.list_frame_id (LRU.Pin r f) = filter (λ x, x ≠ f) (LRU.list_frame_id r) ∧
  LRU.map_frame_id (LRU.Pin r f) = LRU.map_frame_id r ∖ {[f]}.
Proof.
  intros [Hnd Hkeys]. unfold LRU.Pin. case_decide as Hf; simpl.
  - split; [by apply erase_node_filter | done].
  - split.
    + symmetry. apply filter_ne_absent. by rewrite <- Hkeys.
    + apply set_eq. intros x. rewrite elem_of_difference, elem_of_singleton.
      split; [| tauto]. intros Hx. split; [done | intros ->; done].
Qed.

Lemma Pin_keeps_order_witness :
  LRU.coherent replacer_1_0 ∧
  LRU.list_frame_id (LRU.Pin replacer_1_0 1) = [0] ∧
  LRU.map_frame_id (LRU.Pin replacer_1_0 1) = LRU.map_frame_id replacer_1_0 ∖ {[1]}.
Proof.
  split; [exact replacer_1_0_coherent |].
  apply (Pin_keeps_order replacer_1_0 1). exact replacer_1_0_coherent.
Defined.

(** X6.  A full replacer makes room at the front: when [Size() = maxLen]
    and [f] is not tracked, [Unpin(f)] drops the front of the list, the
    frame that was unpinned last, and puts [f] in its place; the older
    entries are kept. *)
Theorem Unpin_full_drops_front r f x l :
  LRU.list_frame_id r = x :: l →
  LRU.Size r = LRU.maxLen r →
  f ∉ LRU.map_frame_id r →
  LRU.Unpin r f =
    Some (LRU.mkLRU (f :: l) ({[f]} ∪ (LRU.map_frame_id r ∖ {[x]})) (LRU.maxLen r)).
Proof.
  intros Hl Hfull Hf. unfold LRU.Unpin, LRU.Size in *.
  rewrite decide_False by done. rewrite Hl in *. simpl in *.
  rewrite decide_True by lia.
  by rewrite Unpin_loop_room by lia.
Qed.

Lemma Unpin_full_drops_front_witness :
  LRU.Unpin (LRU.mkLRU [1; 0] ({[1]} ∪ ({[0]} ∪ ∅)) 2) 2 =
    Some (LRU.mkLRU [2; 0] ({[2]} ∪ (({[1]} ∪ ({[0]} ∪ ∅)) ∖ {[1]})) 2).
Proof.
  assert (H2 : 2 ∉ ({[1]} ∪ ({[0]} ∪ ∅) : gset Z)) by not_tracked.
  exact (Unpin_full_drops_front (LRU.mkLRU [1; 0] ({[1]} ∪ ({[0]} ∪ ∅)) 2) 2 1 [0]
           eq_refl eq_refl H2).
Defined.

Lemma Unpin_loop_zero l m : LRU.Unpin_loop 0 l m = None.
Proof.
  revert m. induction l as [| y l IH]; intros m; [done |]. apply IH.
Qed.

(** X7.  [Unpin] of an untracked frame has a defined result exactly when
    the replacer was built with a capacity above zero: with [maxLen = 0] the
    loop condition [Size() >= maxLen] never fails and the loop ends up
    taking [front()] of an empty list. *)
Theorem Unpin_defined_iff r f :
  f ∉ LRU.map_frame_id r →
  is_Some (LRU.Unpin r f) ↔ (0 < LRU.maxLen r)%nat.
Proof.
  intros Hf. split; [| apply Unpin_defined].
  intros [r' Hr']. destruct (LRU.maxLen r) as [| n] eqn:Hn; [| lia].
  revert Hr'. unfold LRU.Unpin. rewrite decide_False by done.
  by rewrite Hn, Unpin_loop_zero.
Qed.

Lemma Unpin_defined_iff_witness :
  (0 ∉ LRU.map_frame_id (LRU.new 0)) ∧
  (is_Some (LRU.Unpin (LRU.new 0) 0) ↔ (0 < LRU.maxLen (LRU.new 0))%nat) ∧
  LRU.Unpin (LRU.new 0) 0 = None.
Proof.
  assert (H0 : 0 ∉ LRU.map_frame_id (LRU.new 0)) by (simpl; not_tracked).
  split_and!; [exact H0 | | reflexivity].
  apply (Unpin_defined_iff (LRU.new 0) 0). exact H0.
Defined.

Lemma unpin_all_fresh fs : ∀ r,
  NoDup fs →
  (∀ f, f ∈ fs → f ∉ LRU.map_frame_id r) →
  (LRU.Size r + length fs ≤ LRU.maxLen r)%nat →
  ∃ r', LRU.unpin_all r fs = Some r' ∧
        LRU.list_frame_id r' = reverse fs ++ LRU.list_frame_id r ∧
        LRU.maxLen r' = LRU.maxLen r.
Proof.
  induction fs as [| f fs IH]; intros r Hnd Hfresh Hroom; simpl.
  - by exists r.
  - apply NoDup_cons in Hnd as [Hf Hnd]. simpl in Hroom.
    rewrite Unpin_fresh; [| apply Hfresh; by left | lia]. simpl.
    edestruct (IH (LRU.mkLRU (f :: LRU.list_frame_id r)
                     ({[f]} ∪ LRU.map_frame_id r) (LRU.maxLen r)))
      as (r' & Hr' & Hl & Hn); [done | | | ].
    + intros g Hg. simpl. rewrite elem_of_union, elem_of_singleton.
      intros [-> | Hin]; [done |]. apply (Hfresh g); [by right | done].
    + unfold LRU.Size in *. simpl. lia.
    + exists r'. split; [done |]. simpl in *. split; [| done].
      by rewrite Hl, reverse_cons, <- app_assoc.
Qed.

Lemma victims_drain l : ∀ r,
  LRU.list_frame_id r = l →
  (LRU.victims (length l) r).1 = Some <$> reverse l ∧
  LRU.list_frame_id (LRU.victims (length l) r).2 = [].
Proof.
  induction l as [| x l IH] using rev_ind; intros r Hl; [done |].
  rewrite length_app, Nat.add_comm. simpl.
  rewrite (Victim_back r l x) by done.
  destruct (IH (LRU.mkLRU l (LRU.map_frame_id r ∖ {[x]}) (LRU.maxLen r)) eq_refl)
    as [Hvs Hrest].
  destruct (LRU.victims (length l) _) as [vs r'']. simpl in *.
  split; [| done]. by rewrite Hvs, reverse_snoc.
Qed.

(** X8.  Least recently unpinned first, for any number of frames: when
    distinct frames [fs] are unpinned one after the other into a replacer
    that tracks nothing and has room for all of them, as many [Victim]
    calls return them in the order they were unpinned, and the next
    [Victim] returns false. *)
Theorem unpin_all_then_victims r fs :
  LRU.list_frame_id r = [] →
  LRU.map_frame_id r = ∅ →
  NoDup fs →
  (length fs ≤ LRU.maxLen r)%nat →
  ∃ r',
    LRU.unpin_all r fs = Some r' ∧
    (LRU.victims (length fs) r').1 = Some <$> fs ∧
    (LRU.Victim (LRU.victims (length fs) r').2).1 = None.
Proof.
  intros Hl Hm Hnd Hlen.
  destruct (unpin_all_fresh fs r Hnd) as (r' & Hr' & Hl' & _).
  { intros f _. rewrite Hm. apply not_elem_of_empty. }
  { unfold LRU.Size. rewrite Hl. simpl. lia. }
  exists r'. split; [done |].
  rewrite Hl, app_nil_r in Hl'.
  destruct (victims_drain (reverse fs) r' Hl') as [Hvs Hrest].
  rewrite length_reverse, reverse_involutive in *.
  split; [done |]. unfold LRU.Victim. by rewrite Hrest.
Qed.

Lemma unpin_all_then_victims_witness :
  ∃ r',
    LRU.unpin_all (LRU.new 4) [3; 1; 2; 0] = Some r' ∧
    (LRU.victims 4 r').1 = [Some 3; Some 1; Some 2; Some 0] ∧
    (LRU.Victim (LRU.victims 4 r').2).1 = None.
Proof.
  apply (unpin_all_then_victims (LRU.new 4) [3; 1; 2; 0]);
    [reflexivity | reflexivity | | simpl; lia].
  repeat (apply NoDup_cons; split; [rewrite ?elem_of_cons, ?elem_of_nil; lia |]).
  apply NoDup_nil_2.
Defined.


(** X9.  [Victim] takes the back of the list: on a replacer whose list and
    key set agree, a successful [Victim] returns the frame that has been
    tracked longest, which is then tracked no more, and shortens the list by
    that one node; it fails only when nothing is tracked, and then changes
    nothing. *)
Theorem Victim_takes_back r :
  LRU.coherent r →
  match LRU.Victim r with
  | (Some x, r') =>
      LRU.list_frame_id r = LRU.list_frame_id r' ++ [x] ∧
      x ∈ LRU.map_frame_id r ∧
      (x ∉ LRU.map_frame_id r') ∧
      (x ∉ LRU.list_frame_id r') ∧
      LRU.Size r = S (LRU.Size r')
  | (None, r') => r' = r ∧ LRU.Size r = 0%nat
  end.
Proof.
  intros [Hnd Hkeys]. unfold LRU.Victim, LRU.Size.
  destruct (last (LRU.list_frame_id r)) as [x |] eqn:Hlast.
  - apply last_Some in Hlast as [l Hl]. simpl. rewrite Hl in *.
    rewrite removelast_last. apply NoDup_app in Hnd as (_ & Hx & _).
    split_and!.
    + done.
    + apply Hkeys, elem_of_app. right. by apply list_elem_of_singleton.
    + rewrite elem_of_difference, elem_of_singleton. tauto.
    + intros Hin. apply (Hx x Hin). by apply list_elem_of_singleton.
    + rewrite length_app. simpl. lia.
  - apply last_None in Hlast. by rewrite Hlast.
Qed.

Lemma Victim_takes_back_witness :
  LRU.coherent replacer_1_0 ∧
  LRU.Victim replacer_1_0 =
    (Some 0, LRU.mkLRU [1] (LRU.map_frame_id replacer_1_0 ∖ {[0]}) 3) ∧
  0 ∉ LRU.map_frame_id (LRU.Victim replacer_1_0).2.
Proof.
  split; [exact replacer_1_0_coherent |]. split; [reflexivity |].
  pose proof (Victim_takes_back replacer_1_0 replacer_1_0_coherent) as Hv.
  change (LRU.Victim replacer_1_0)
    with (Some 0, LRU.mkLRU [1] (LRU.map_frame_id replacer_1_0 ∖ {[0]}) 3) in Hv.
  destruct Hv as (_ & _ & Hgone & _). exact Hgone.
Defined.

(** * Further properties of the buffer pool manager *)

(** ** Soundness is kept by every step an operation is made of *)


















(** ** Every operation returns from a sound pool, and leaves it sound *)



(** ** Path equations *)

Lemma update_page_lookup s f g pg :
  0 ≤ f →
  pages_ s !! Z.to_nat f = Some pg →
  update_page f g s = Some (set_pages (<[Z.to_nat f := g pg]> (pages_ s)) s).
Proof.
  intros Hf Hlk. unfold update_page, page_at. rewrite decide_True by done.
  by rewrite Hlk.
Qed.

Lemma page_at_lookup_eq s f pg :
  0 ≤ f → pages_ s !! Z.to_nat f = Some pg → page_at s f = Some pg.
Proof. intros Hf Hlk. unfold page_at. by rewrite decide_True. Qed.

(** One step through [pages_[f]], read or written, where [Hlk] gives the
    slot as it was at entry. *)
Ltac slot_lookup Hlk :=
  simpl; rewrite ?list_insert_insert_eq;
  first [ exact Hlk
        | apply list_lookup_insert_eq; eapply lookup_lt_Some; exact Hlk ].

(** Projections of updated states and frames. *)
Ltac norm_state :=
  cbn [mbind option_bind
       pool_size_ pages_ replacer_ free_list_ page_table_ latch_ disk_manager_
       set_pages set_replacer set_free_list set_page_table set_latch
       set_disk_manager unlock
       data_ page_id_ pin_count_ is_dirty_
       set_data set_page_id set_pin_count set_is_dirty ResetMemory];
  rewrite ?list_insert_insert_eq.

Ltac step_update Hnn Hlk :=
  erewrite update_page_lookup; [| exact Hnn | slot_lookup Hlk];
  norm_state.

Ltac step_read Hnn Hlk :=
  erewrite page_at_lookup_eq; [| exact Hnn | slot_lookup Hlk];
  norm_state.

Section PathEquations.
Context `{DM : DiskManager}.

(** A resident page that is neither pinned nor dirty is deleted: its frame
    is zeroed, marked as holding no page and appended to the free list, its
    page table entry is erased and the page id is deallocated. *)
Lemma DeletePageImpl_clean s p f pg :
  latch_ s = false →
  page_table_ s !! p = Some f →
  page_at s f = Some pg →
  pin_count_ pg = 0 →
  is_dirty_ pg = false →
  DeletePageImpl s p =
    Some (true,
          set_free_list (free_list_ s ++ [f])
            (set_page_table (delete p (page_table_ s))
               (set_pages
                  (<[Z.to_nat f := mkPage zero_data INVALID_PAGE_ID 0 false]> (pages_ s))
                  (set_disk_manager (CallDeallocatePage p :: disk_manager_ s) s)))).
Proof.
  intros Hl Hp Hf Hpin Hd.
  pose proof (page_at_nonneg _ _ _ Hf) as Hnn.
  pose proof (page_at_lookup _ _ _ Hf) as Hlk.
  unfold DeletePageImpl. rewrite lock_free by done. cbn [mbind option_bind].
  change (page_table_ (set_latch true s)) with (page_table_ s). rewrite Hp.
  step_read Hnn Hlk.
  rewrite decide_False by (intros Hc; by apply Hc). rewrite Hd.
  cbn [mbind option_bind].
  unfold page_table_index, DeallocatePage. norm_state. rewrite Hp.
  step_update Hnn Hlk. rewrite Hp.
  step_update Hnn Hlk. rewrite Hp.
  step_update Hnn Hlk.
  destruct s, pg; simpl in *; subst; reflexivity.
Qed.

Lemma DeletePageImpl_pinned s p f pg :
  latch_ s = false →
  page_table_ s !! p = Some f →
  page_at s f = Some pg →
  pin_count_ pg ≠ 0 →
  DeletePageImpl s p = Some (false, s).
Proof.
  intros Hl Hp Hf Hpin.
  pose proof (page_at_nonneg _ _ _ Hf) as Hnn.
  pose proof (page_at_lookup _ _ _ Hf) as Hlk.
  unfold DeletePageImpl. rewrite lock_free by done. cbn [mbind option_bind].
  change (page_table_ (set_latch true s)) with (page_table_ s). rewrite Hp.
  step_read Hnn Hlk.
  rewrite decide_True by done. by rewrite unlock_locked.
Qed.

End PathEquations.

Section NewPageEquations.
Context `{DM : DiskManager}.

(** [new_page] with a free frame: the frame at the front of the free list
    receives the allocated id, pinned once and clean; its payload is left as
    it is and written to disk; the replacer is not consulted. *)
Lemma NewPageImpl_free_frame s f rest pg :
  latch_ s = false →
  free_list_ s = f :: rest →
  f ≠ -1 →
  page_at s f = Some pg →
  let new_id := AllocatePage_result (disk_manager_ s) in
  NewPageImpl s =
    Some (Some (new_id, f),
          set_page_table (page_table_insert new_id f (page_table_ s))
            (set_disk_manager
               (CallWritePage new_id (data_ pg) :: CallAllocatePage new_id
                  :: disk_manager_ s)
               (set_pages (<[Z.to_nat f := mkPage (data_ pg) new_id 1 false]> (pages_ s))
                  (set_free_list rest s)))).
Proof.
  intros Hl Hfl Hne Hf new_id.
  pose proof (page_at_nonneg _ _ _ Hf) as Hnn.
  pose proof (page_at_lookup _ _ _ Hf) as Hlk.
  unfold NewPageImpl. rewrite lock_free by done. unfold AllocatePage, WritePage.
  norm_state. rewrite Hfl. norm_state.
  rewrite decide_True by done.
  step_update Hnn Hlk. step_read Hnn Hlk.
  destruct s, pg; simpl in *; subst; reflexivity.
Qed.

(** [new_page] without a free frame: the replacer's victim is written back
    when dirty, its page leaves the page table, the frame is zeroed and then
    receives the allocated id, pinned once and clean. *)
Lemma NewPageImpl_victim s f r' pg :
  latch_ s = false →
  free_list_ s = [] →
  LRU.Victim (replacer_ s) = (Some f, r') →
  f ≠ -1 →
  page_at s f = Some pg →
  let new_id := AllocatePage_result (disk_manager_ s) in
  let write_back :=
    if is_dirty_ pg then [CallWritePage (page_id_ pg) (data_ pg)] else [] in
  NewPageImpl s =
    Some (Some (new_id, f),
          set_page_table
            (page_table_insert new_id f (delete (page_id_ pg) (page_table_ s)))
            (set_disk_manager
               (CallWritePage new_id zero_data :: write_back
                  ++ CallAllocatePage new_id :: disk_manager_ s)
               (set_pages (<[Z.to_nat f := mkPage zero_data new_id 1 false]> (pages_ s))
                  (set_replacer r' s)))).
Proof.
  intros Hl Hfl Hv Hne Hf new_id write_back.
  pose proof (page_at_nonneg _ _ _ Hf) as Hnn.
  pose proof (page_at_lookup _ _ _ Hf) as Hlk.
  unfold NewPageImpl. rewrite lock_free by done. unfold AllocatePage, WritePage.
  norm_state. rewrite Hfl, Hv. norm_state.
  step_read Hnn Hlk. subst write_back.
  destruct (is_dirty_ pg) eqn:Hd.
  - step_update Hnn Hlk. step_update Hnn Hlk. step_update Hnn Hlk.
    rewrite decide_True by done.
    step_update Hnn Hlk. step_read Hnn Hlk.
    destruct s, pg; simpl in *; subst; reflexivity.
  - norm_state. step_update Hnn Hlk. step_update Hnn Hlk.
    rewrite decide_True by done.
    step_update Hnn Hlk. step_read Hnn Hlk.
    destruct s, pg; simpl in *; subst; reflexivity.
Qed.


End NewPageEquations.

Section FetchPageEquations.
Context `{DM : DiskManager}.

Lemma FetchPageImpl_hit_eq s p f pg :
  latch_ s = false →
  page_table_ s !! p = Some f →
  page_at s f = Some pg →
  FetchPageImpl s p =
    Some (Some f,
          set_pages (<[Z.to_nat f := set_pin_count (pin_count_ pg + 1) pg]> (pages_ s))
            (set_replacer (LRU.Pin (replacer_ s) f) s)).
Proof.
  intros Hl Hp Hf.
  pose proof (page_at_nonneg _ _ _ Hf) as Hnn.
  pose proof (page_at_lookup _ _ _ Hf) as Hlk.
  unfold FetchPageImpl. rewrite lock_free by done. norm_state. rewrite Hp.
  step_update Hnn Hlk.
  destruct s; simpl in *; subst; reflexivity.
Qed.

(** A miss served by eviction.  [q] is the page id the search through the
    page table finds for the victim frame; the frame is written back under
    that id when it is dirty, the page table entry of the id recorded in
    the frame is erased, and the requested page is read into the frame. *)
Lemma FetchPageImpl_victim s p f r' pg :
  latch_ s = false →
  page_table_ s !! p = None →
  free_list_ s = [] →
  LRU.Victim (replacer_ s) = (Some f, r') →
  page_at s f = Some pg →
  let q := find_page_of_frame (page_table_ s) f in
  let evict := bool_decide (q ≠ INVALID_PAGE_ID) in
  let write_back := evict && is_dirty_ pg in
  let disk1 :=
    if write_back then CallWritePage q (data_ pg) :: disk_manager_ s
    else disk_manager_ s in
  let pins := if write_back then 0 else pin_count_ pg in
  let table1 :=
    if evict then delete (page_id_ pg) (page_table_ s) else page_table_ s in
  FetchPageImpl s p =
    Some (Some f,
          set_replacer (LRU.Pin r' f)
            (set_pages
               (<[Z.to_nat f := mkPage (ReadPage_result disk1 p) p (pins + 1) false]>
                  (pages_ s))
               (set_page_table (<[p := f]> table1)
                  (set_disk_manager (CallReadPage p :: disk1) s)))).
Proof.
  intros Hl Hp Hfl Hv Hf q evict write_back disk1 pins table1.
  pose proof (page_at_nonneg _ _ _ Hf) as Hnn.
  pose proof (page_at_lookup _ _ _ Hf) as Hlk.
  unfold FetchPageImpl. rewrite lock_free by done. norm_state.
  rewrite Hp, Hfl, Hv. norm_state. fold q.
  subst evict write_back disk1 pins table1.
  destruct (decide (q ≠ INVALID_PAGE_ID)) as [Hq | Hq].
  - rewrite (bool_decide_eq_true_2 _ Hq). step_read Hnn Hlk.
    destruct (is_dirty_ pg) eqn:Hd; unfold WritePage, ReadPage; norm_state.
    + step_update Hnn Hlk. step_update Hnn Hlk. step_update Hnn Hlk.
      destruct s, pg; simpl in *; subst; reflexivity.
    + step_update Hnn Hlk. step_update Hnn Hlk.
      destruct s, pg; simpl in *; subst; reflexivity.
  - rewrite (bool_decide_eq_false_2 _ Hq). unfold ReadPage. norm_state.
    step_update Hnn Hlk. step_update Hnn Hlk.
    destruct s, pg; simpl in *; subst; reflexivity.
Qed.

End FetchPageEquations.





Section OperationsSound.
Context `{DM : DiskManager}.









End OperationsSound.

(** ** What holds in every reachable state *)

Section Reachable.
Context `{DM : DiskManager}.





End Reachable.





(** ** Single operations *)

Lemma update_page_inv s f g s' :
  update_page f g s = Some s' →
  ∃ pg, page_at s f = Some pg ∧
        s' = set_pages (<[Z.to_nat f := g pg]> (pages_ s)) s.
Proof.
  unfold update_page. destruct (page_at s f) as [pg |]; [| discriminate].
  intros [= <-]. eauto.
Qed.

Lemma fmap_insert_same {B} (proj : Page → B) (l : list Page) i pg pg' :
  l !! i = Some pg → proj pg' = proj pg → proj <$> <[i := pg']> l = proj <$> l.
Proof.
  intros Hlk Hproj. rewrite list_fmap_insert, Hproj.
  apply list_insert_id. by rewrite list_lookup_fmap, Hlk.
Qed.

(** X15.  [unpin_page] works on pin counts and dirty bits only: whenever it
    returns, the page table, the free list, the payload and page id of
    every frame and the history of disk calls are as before; when it returns
    [false], the pin counts and the replacer are as before too. *)
Theorem UnpinPageImpl_touches_only_pins s p d b s' :
  UnpinPageImpl s p d = Some (b, s') →
  page_table_ s' = page_table_ s ∧
  free_list_ s' = free_list_ s ∧
  disk_manager_ s' = disk_manager_ s ∧
  (λ pg, (data_ pg, page_id_ pg)) <$> pages_ s' =
    (λ pg, (data_ pg, page_id_ pg)) <$> pages_ s ∧
  (b = false →
   replacer_ s' = replacer_ s ∧ pin_count_ <$> pages_ s' = pin_count_ <$> pages_ s).
Proof.
  unfold UnpinPageImpl, lock. destruct (latch_ s); [discriminate |].
  cbn [mbind option_bind].
  change (page_table_ (set_latch true s)) with (page_table_ s).
  destruct (page_table_ s !! p) as [f |]; [| by intros [= <- <-]].
  set (s0 := set_latch true s).
  destruct (if d then update_page f (set_is_dirty true) s0 else Some s0)
    as [s1 |] eqn:Hs1; [| discriminate].
  cbn [mbind option_bind].
  assert (Hkeep : page_table_ s1 = page_table_ s ∧ free_list_ s1 = free_list_ s ∧
                  disk_manager_ s1 = disk_manager_ s ∧ replacer_ s1 = replacer_ s ∧
                  (λ pg, (data_ pg, page_id_ pg)) <$> pages_ s1 =
                    (λ pg, (data_ pg, page_id_ pg)) <$> pages_ s ∧
                  pin_count_ <$> pages_ s1 = pin_count_ <$> pages_ s).
  { destruct d; [| by injection Hs1 as <-].
    apply update_page_inv in Hs1 as (pg & Hpg & ->). apply page_at_lookup in Hpg.
    split_and!; try done; simpl; by apply (fmap_insert_same _ _ _ pg). }
  destruct Hkeep as (Hpt & Hfl & Hdm & Hr & Hpay & Hpins).
  destruct (page_at s1 f) as [pg |] eqn:Hpg; [| discriminate].
  cbn [mbind option_bind]. case_decide as Hz.
  { intros [= <- <-]. simpl. by split_and!. }
  destruct (update_page f _ s1) as [s2 |] eqn:Hs2; [| discriminate].
  apply update_page_inv in Hs2 as (pg2 & Hpg2 & ->).
  cbn [mbind option_bind].
  rewrite (page_at_set_pages_eq s1 f pg2) by done.
  cbn [mbind option_bind].
  assert (Hpay2 : (λ pg, (data_ pg, page_id_ pg))
                    <$> <[Z.to_nat f := set_pin_count (pin_count_ pg2 - 1) pg2]> (pages_ s1)
                  = (λ pg, (data_ pg, page_id_ pg)) <$> pages_ s).
  { rewrite <- Hpay. apply (fmap_insert_same _ _ _ pg2); [| done].
    by apply page_at_lookup. }
  case_decide.
  - destruct (LRU.Unpin _ f) as [r' |]; [| discriminate].
    cbn [mbind option_bind]. intros [= <- <-]. simpl. by split_and!.
  - cbn [mbind option_bind]. intros [= <- <-]. simpl. by split_and!.
Qed.

Lemma UnpinPageImpl_touches_only_pins_witness :
  UnpinPageImpl pool1_pinned 0 true =
    Some (true, set_replacer (LRU.mkLRU [0] ({[0]} ∪ ∅) 1)
                  (set_pages [mkPage zero_data 0 0 true] pool1_pinned)) ∧
  (λ pg, (data_ pg, page_id_ pg)) <$> [mkPage zero_data 0 0 true] =
    (λ pg, (data_ pg, page_id_ pg)) <$> pages_ pool1_pinned.
Proof.
  split; [reflexivity |].
  apply (UnpinPageImpl_touches_only_pins pool1_pinned 0 true true
           (set_replacer (LRU.mkLRU [0] ({[0]} ∪ ∅) 1)
              (set_pages [mkPage zero_data 0 0 true] pool1_pinned))).
  reflexivity.
Defined.



Section SingleOperations.
Context `{DM : DiskManager}.

(** X17.  [new_page] takes the frame at the front of the free list when
    there is one: the frame then holds the id returned by [AllocatePage],
    pinned once and clean, that id is mapped to the frame unless it was
    already in the page table, and the payload found in the frame is written
    to disk under the new id; the replacer is not touched. *)
Theorem NewPageImpl_takes_free_frame s f rest pg :
  latch_ s = false →
  free_list_ s = f :: rest →
  f ≠ -1 →
  page_at s f = Some pg →
  let new_id := AllocatePage_result (disk_manager_ s) in
  ∃ s',
    NewPageImpl s = Some (Some (new_id, f), s') ∧
    page_at s' f = Some (mkPage (data_ pg) new_id 1 false) ∧
    (∀ g, g ≠ f → page_at s' g = page_at s g) ∧
    free_list_ s' = rest ∧
    replacer_ s' = replacer_ s ∧
    page_table_ s' = page_table_insert new_id f (page_table_ s) ∧
    (page_table_ s !! new_id = None → page_table_ s' !! new_id = Some f) ∧
    disk_manager_ s' =
      CallWritePage new_id (data_ pg) :: CallAllocatePage new_id :: disk_manager_ s ∧
    latch_ s' = false.
Proof.
  intros Hl Hfl Hne Hf new_id.
  pose proof (page_at_nonneg _ _ _ Hf) as Hnn.
  rewrite (NewPageImpl_free_frame s f rest pg) by done.
  eexists. split; [reflexivity |]. simpl. split_and!; try done.
  - by apply (page_at_set_pages_eq s f pg).
  - intros g Hg. by apply (page_at_set_pages_ne s f g).
  - intros Hfresh. unfold page_table_insert. fold new_id. rewrite Hfresh.
    apply lookup_insert_eq.
Qed.

(** X18.  [new_page] followed by [fetch_page] of the id it returned gives
    the same frame, now pinned twice, without any disk read (here for a
    frame taken from the free list and an id that was not resident). *)
Theorem NewPageImpl_then_FetchPageImpl s f rest pg :
  latch_ s = false →
  free_list_ s = f :: rest →
  f ≠ -1 →
  page_at s f = Some pg →
  let new_id := AllocatePage_result (disk_manager_ s) in
  page_table_ s !! new_id = None →
  ∃ s1 s2,
    NewPageImpl s = Some (Some (new_id, f), s1) ∧
    FetchPageImpl s1 new_id = Some (Some f, s2) ∧
    page_at s2 f = Some (mkPage (data_ pg) new_id 2 false) ∧
    disk_manager_ s2 = disk_manager_ s1.
Proof.
  intros Hl Hfl Hne Hf new_id Hfresh.
  pose proof (page_at_nonneg _ _ _ Hf) as Hnn.
  rewrite (NewPageImpl_free_frame s f rest pg) by done. fold new_id.
  eexists _, _. split; [reflexivity |].
  erewrite (FetchPageImpl_hit_eq _ new_id f (mkPage (data_ pg) new_id 1 false)).
  - split; [reflexivity |]. split; [| reflexivity].
    simpl. rewrite list_insert_insert_eq.
    by apply (page_at_set_pages_eq s f pg).
  - done.
  - simpl. unfold page_table_insert. rewrite Hfresh. apply lookup_insert_eq.
  - by apply (page_at_set_pages_eq s f pg).
Qed.

(** X19.  [new_page] without a free frame evicts the replacer's victim:
    when the victim frame is dirty its payload is written to disk under the
    page id it holds, before anything else is written; that id leaves the
    page table; the frame is zeroed and then holds the new id, pinned once
    and clean, and the zeroed payload is written under the new id. *)
Theorem NewPageImpl_evicts_victim s f r' pg :
  latch_ s = false →
  free_list_ s = [] →
  LRU.Victim (replacer_ s) = (Some f, r') →
  f ≠ -1 →
  page_at s f = Some pg →
  let new_id := AllocatePage_result (disk_manager_ s) in
  ∃ s',
    NewPageImpl s = Some (Some (new_id, f), s') ∧
    page_at s' f = Some (mkPage zero_data new_id 1 false) ∧
    (∀ g, g ≠ f → page_at s' g = page_at s g) ∧
    replacer_ s' = r' ∧
    free_list_ s' = [] ∧
    page_table_ s' = page_table_insert new_id f (delete (page_id_ pg) (page_table_ s)) ∧
    (new_id ≠ page_id_ pg → page_table_ s' !! page_id_ pg = None) ∧
    disk_manager_ s' =
      CallWritePage new_id zero_data
        :: (if is_dirty_ pg then [CallWritePage (page_id_ pg) (data_ pg)] else [])
        ++ CallAllocatePage new_id :: disk_manager_ s.
Proof.
  intros Hl Hfl Hv Hne Hf new_id.
  pose proof (page_at_nonneg _ _ _ Hf) as Hnn.
  rewrite (NewPageImpl_victim s f r' pg) by done.
  eexists. split; [reflexivity |]. simpl. split_and!; try done.
  - by apply (page_at_set_pages_eq s f pg).
  - intros g Hg. by apply (page_at_set_pages_ne s f g).
  - intros Hid. fold new_id. unfold page_table_insert.
    destruct (delete (page_id_ pg) (page_table_ s) !! new_id) eqn:Hlk.
    + apply lookup_delete_eq.
    + rewrite lookup_insert_ne by done. apply lookup_delete_eq.
Qed.

End SingleOperations.

Lemma NewPageImpl_takes_free_frame_witness :
  latch_ pool1 = false ∧
  free_list_ pool1 = [0] ∧
  page_at pool1 0 = Some Page_new ∧
  ∃ s', NewPageImpl (DM := file_disk) pool1 = Some (Some (0, 0), s') ∧
        page_at s' 0 = Some (mkPage zero_data 0 1 false) ∧
        free_list_ s' = [].
Proof.
  split_and!; [reflexivity .. |].
  destruct (NewPageImpl_takes_free_frame (DM := file_disk) pool1 0 [] Page_new
              eq_refl eq_refl ltac:(discriminate) eq_refl)
    as (s' & Hnew & Hpg & _ & Hfl & _).
  exists s'. split_and!; [exact Hnew | exact Hpg | exact Hfl].
Defined.

Lemma NewPageImpl_then_FetchPageImpl_witness :
  latch_ pool1 = false ∧
  free_list_ pool1 = [0] ∧
  page_at pool1 0 = Some Page_new ∧
  page_table_ pool1 !! 0 = None ∧
  ∃ s1 s2,
    NewPageImpl (DM := file_disk) pool1 = Some (Some (0, 0), s1) ∧
    FetchPageImpl (DM := file_disk) s1 0 = Some (Some 0, s2) ∧
    page_at s2 0 = Some (mkPage zero_data 0 2 false) ∧
    disk_manager_ s2 = disk_manager_ s1.
Proof.
  split_and!; [reflexivity .. |].
  exact (NewPageImpl_then_FetchPageImpl (DM := file_disk) pool1 0 [] Page_new
           eq_refl eq_refl ltac:(discriminate) eq_refl eq_refl).
Defined.

Lemma NewPageImpl_evicts_victim_witness :
  latch_ pool1_unpinned = false ∧
  free_list_ pool1_unpinned = [] ∧
  (LRU.Victim (replacer_ pool1_unpinned)).1 = Some 0 ∧
  page_at pool1_unpinned 0 = Some (mkPage zero_data 0 0 false) ∧
  ∃ s', NewPageImpl (DM := file_disk) pool1_unpinned = Some (Some (1, 0), s') ∧
        page_at s' 0 = Some (mkPage zero_data 1 1 false) ∧
        page_table_ s' !! 0 = None.
Proof.
  split_and!; [reflexivity .. |].
  destruct (NewPageImpl_evicts_victim (DM := file_disk) pool1_unpinned 0
              (LRU.Victim (replacer_ pool1_unpinned)).2 (mkPage zero_data 0 0 false)
              eq_refl eq_refl eq_refl ltac:(discriminate) eq_refl)
    as (s' & Hnew & Hpg & _ & _ & _ & _ & Hgone & _).
  exists s'. split_and!; [exact Hnew | exact Hpg |].
  apply Hgone. discriminate.
Defined.

Lemma UnpinPageImpl_decrement s p f pg :
  latch_ s = false →
  page_table_ s !! p = Some f →
  page_at s f = Some pg →
  pin_count_ pg ≠ 0 →
  UnpinPageImpl s p false =
    r ← (if decide (pin_count_ pg - 1 = 0) then LRU.Unpin (replacer_ s) f
         else Some (replacer_ s));
    Some (true,
          set_replacer r
            (set_pages (<[Z.to_nat f := set_pin_count (pin_count_ pg - 1) pg]> (pages_ s))
               s)).
Proof.
  intros Hl Hp Hf Hpin.
  pose proof (page_at_nonneg _ _ _ Hf) as Hnn.
  pose proof (page_at_lookup _ _ _ Hf) as Hlk.
  unfold UnpinPageImpl. rewrite lock_free by done. norm_state. rewrite Hp.
  norm_state. step_read Hnn Hlk. rewrite decide_False by done.
  step_update Hnn Hlk. step_read Hnn Hlk.
  case_decide.
  - destruct (LRU.Unpin (replacer_ s) f) as [r |]; [| done]. norm_state.
    destruct s; simpl in *; subst; reflexivity.
  - norm_state. destruct s; simpl in *; subst; reflexivity.
Qed.

Section MoreSingleOperations.
Context `{DM : DiskManager}.

(** X20.  A [fetch_page] miss with an empty free list evicts the
    replacer's victim.  When the victim frame holds a valid page that the
    page table maps to it (and no other id is mapped to it), a dirty frame
    is first written back under that id; the id leaves the page table; the
    requested page is read from disk into the frame, which is then clean,
    mapped from [p] and has one pin more than the victim had (none being
    kept of a dirty victim). *)
Theorem FetchPageImpl_evicts_victim s p f r' pg :
  latch_ s = false →
  page_table_ s !! p = None →
  free_list_ s = [] →
  LRU.Victim (replacer_ s) = (Some f, r') →
  page_at s f = Some pg →
  page_id_ pg ≠ INVALID_PAGE_ID →
  page_table_ s !! page_id_ pg = Some f →
  (∀ q, page_table_ s !! q = Some f → q = page_id_ pg) →
  let disk1 :=
    (if is_dirty_ pg then [CallWritePage (page_id_ pg) (data_ pg)] else [])
      ++ disk_manager_ s in
  ∃ s',
    FetchPageImpl s p = Some (Some f, s') ∧
    page_at s' f =
      Some (mkPage (ReadPage_result disk1 p) p
              ((if is_dirty_ pg then 0 else pin_count_ pg) + 1) false) ∧
    (∀ g, g ≠ f → page_at s' g = page_at s g) ∧
    page_table_ s' = <[p := f]> (delete (page_id_ pg) (page_table_ s)) ∧
    disk_manager_ s' = CallReadPage p :: disk1 ∧
    replacer_ s' = LRU.Pin r' f ∧
    free_list_ s' = [].
Proof.
  intros Hl Hp Hfl Hv Hf Hvalid Hq Huniq disk1.
  pose proof (page_at_nonneg _ _ _ Hf) as Hnn.
  rewrite (FetchPageImpl_victim s p f r' pg) by done.
  rewrite (find_page_of_frame_unique _ _ _ Hq Huniq).
  rewrite (bool_decide_eq_true_2 _ Hvalid).
  eexists. split; [reflexivity |]. subst disk1. simpl.
  destruct (is_dirty_ pg); simpl; split_and!; try done.
  - by apply (page_at_set_pages_eq s f pg).
  - intros g Hg. by apply (page_at_set_pages_ne s f g).
  - by apply (page_at_set_pages_eq s f pg).
  - intros g Hg. by apply (page_at_set_pages_ne s f g).
Qed.

(** X21.  [delete_page] of a resident page that is neither pinned nor
    dirty returns [true]: the page id is deallocated, the frame is zeroed,
    holds no page and is appended to the free list, and the page table entry
    is erased.  The replacer is left as it is, so a frame it tracked is
    still tracked. *)
Theorem DeletePageImpl_frees_frame s p f pg :
  latch_ s = false →
  page_table_ s !! p = Some f →
  page_at s f = Some pg →
  pin_count_ pg = 0 →
  is_dirty_ pg = false →
  ∃ s',
    DeletePageImpl s p = Some (true, s') ∧
    page_at s' f = Some (mkPage zero_data INVALID_PAGE_ID 0 false) ∧
    (∀ g, g ≠ f → page_at s' g = page_at s g) ∧
    page_table_ s' = delete p (page_table_ s) ∧
    free_list_ s' = free_list_ s ++ [f] ∧
    replacer_ s' = replacer_ s ∧
    disk_manager_ s' = CallDeallocatePage p :: disk_manager_ s ∧
    latch_ s' = false.
Proof.
  intros Hl Hp Hf Hpin Hd.
  pose proof (page_at_nonneg _ _ _ Hf) as Hnn.
  rewrite (DeletePageImpl_clean s p f pg) by done.
  eexists. split; [reflexivity |]. simpl. split_and!; try done.
  - by apply (page_at_set_pages_eq s f pg).
  - intros g Hg. by apply (page_at_set_pages_ne s f g).
Qed.

(** X22.  [delete_page] of a pinned page is refused: it returns [false] and
    changes nothing, the disk manager is not called. *)
Theorem DeletePageImpl_refuses_pinned s p f pg :
  latch_ s = false →
  page_table_ s !! p = Some f →
  page_at s f = Some pg →
  pin_count_ pg ≠ 0 →
  DeletePageImpl s p = Some (false, s).
Proof. apply DeletePageImpl_pinned. Qed.

(** X23.  [delete_page] of a resident page that is unpinned and dirty does
    not return: it calls [FetchPageImpl] while holding [latch_], and
    [FetchPageImpl] starts by locking the same latch. *)
Theorem DeletePageImpl_dirty_blocks s p f pg :
  latch_ s = false →
  page_table_ s !! p = Some f →
  page_at s f = Some pg →
  pin_count_ pg = 0 →
  is_dirty_ pg = true →
  DeletePageImpl s p = None ∧
  ∀ s1, latch_ s1 = true → FetchPageImpl s1 p = None.
Proof.
  intros Hl Hp Hf Hpin Hd. split; [by apply (DeletePageImpl_dirty s p f pg) |].
  intros s1 Hs1. by apply FetchPageImpl_latch_held.
Qed.

End MoreSingleOperations.

(** X24.  [flush_page] of [INVALID_PAGE_ID], or of a page that is not
    resident, returns [false] and changes nothing; the disk manager is not
    called. *)
Theorem FlushPageImpl_rejects s p :
  latch_ s = false →
  page_table_ s !! p = None ∨ p = INVALID_PAGE_ID →
  FlushPageImpl s p = Some (false, s).
Proof. apply FlushPageImpl_rejected. Qed.

Lemma pool1_dirty_reachable : reachable (DM := file_disk) pool1_dirty.
Proof. exists 1%nat, [new_page; unpin_page 0 true]. vm_compute. reflexivity. Qed.

Lemma pool1_table_unique q : ({[ 0 := 0 ]} : gmap Z Z) !! q = Some 0 → q = 0.
Proof. intros Hq. by apply lookup_singleton_Some in Hq as [<- _]. Qed.

Lemma FetchPageImpl_evicts_victim_witness :
  ∃ s',
    FetchPageImpl (DM := file_disk) pool1_dirty 5 = Some (Some 0, s') ∧
    page_at s' 0 = Some (mkPage zero_data 5 1 false) ∧
    page_table_ s' = <[5 := 0]> (delete 0 (page_table_ pool1_dirty)) ∧
    disk_manager_ s' =
      CallReadPage 5 :: CallWritePage 0 zero_data :: disk_manager_ pool1_dirty.
Proof.
  destruct (FetchPageImpl_evicts_victim (DM := file_disk) pool1_dirty 5 0
              (LRU.Victim (replacer_ pool1_dirty)).2 (mkPage zero_data 0 0 true)
              eq_refl eq_refl eq_refl eq_refl eq_refl ltac:(discriminate) eq_refl
              pool1_table_unique)
    as (s' & Hfetch & Hpg & _ & Hpt & Hdm & _).
  exists s'. split_and!; [exact Hfetch | exact Hpg | exact Hpt | exact Hdm].
Defined.

Lemma DeletePageImpl_frees_frame_witness :
  ∃ s',
    DeletePageImpl (DM := file_disk) pool1_unpinned 0 = Some (true, s') ∧
    page_at s' 0 = Some (mkPage zero_data INVALID_PAGE_ID 0 false) ∧
    free_list_ s' = [0] ∧
    replacer_ s' = replacer_ pool1_unpinned.
Proof.
  destruct (DeletePageImpl_frees_frame (DM := file_disk) pool1_unpinned 0 0
              (mkPage zero_data 0 0 false) eq_refl eq_refl eq_refl eq_refl eq_refl)
    as (s' & Hdel & Hpg & _ & _ & Hfl & Hr & _).
  exists s'. split_and!; [exact Hdel | exact Hpg | exact Hfl | exact Hr].
Defined.

Lemma DeletePageImpl_refuses_pinned_witness :
  pin_count_ (mkPage zero_data 0 1 false) ≠ 0 ∧
  DeletePageImpl (DM := file_disk) pool1_pinned 0 = Some (false, pool1_pinned).
Proof.
  split; [discriminate |].
  apply (DeletePageImpl_refuses_pinned (DM := file_disk) pool1_pinned 0 0
           (mkPage zero_data 0 1 false)); [reflexivity .. | discriminate].
Defined.

Lemma DeletePageImpl_dirty_blocks_witness :
  reachable (DM := file_disk) pool1_dirty ∧
  DeletePageImpl (DM := file_disk) pool1_dirty 0 = None.
Proof.
  split; [exact pool1_dirty_reachable |].
  apply (DeletePageImpl_dirty_blocks (DM := file_disk) pool1_dirty 0 0
           (mkPage zero_data 0 0 true)); reflexivity.
Defined.

Lemma FlushPageImpl_rejects_witness :
  FlushPageImpl pool1 7 = Some (false, pool1) ∧
  FlushPageImpl pool1_pinned INVALID_PAGE_ID = Some (false, pool1_pinned).
Proof.
  split.
  - apply (FlushPageImpl_rejects pool1 7); [reflexivity | left; reflexivity].
  - apply (FlushPageImpl_rejects pool1_pinned INVALID_PAGE_ID);
      [reflexivity | right; reflexivity].
Defined.

Section FetchUnpin.
Context `{DM : DiskManager}.


(** X26.  Use refreshes recency: a [fetch_page] hit followed by
    [unpin_page(p, false)] on an unpinned page whose frame the replacer
    tracks leaves every frame, the page table, the free list and the disk
    history as they were and moves the frame to the front of the replacer,
    the other tracked frames keeping their order; the frame is now the last
    one [Victim] will pick. *)
Theorem FetchPageImpl_then_UnpinPageImpl_refreshes s p f pg :
  latch_ s = false →
  page_table_ s !! p = Some f →
  page_at s f = Some pg →
  pin_count_ pg = 0 →
  LRU.coherent (replacer_ s) →
  (LRU.Size (replacer_ s) ≤ LRU.maxLen (replacer_ s))%nat →
  f ∈ LRU.map_frame_id (replacer_ s) →
  ∃ s1 s2,
    FetchPageImpl s p = Some (Some f, s1) ∧
    UnpinPageImpl s1 p false = Some (true, s2) ∧
    LRU.list_frame_id (replacer_ s2) =
      f :: filter (λ x, x ≠ f) (LRU.list_frame_id (replacer_ s)) ∧
    pages_ s2 = pages_ s ∧
    page_table_ s2 = page_table_ s ∧
    free_list_ s2 = free_list_ s ∧
    disk_manager_ s2 = disk_manager_ s ∧
    latch_ s2 = false.
Proof.
  intros Hl Hp Hf Hpin [Hnd Hkeys] Hsz Hin.
  pose proof (page_at_lookup _ _ _ Hf) as Hlk.
  rewrite (FetchPageImpl_hit_eq s p f pg) by done.
  eexists _, _. split; [reflexivity |].
  erewrite (UnpinPageImpl_decrement _ p f (set_pin_count (pin_count_ pg + 1) pg));
    [| done | done | by apply (page_at_set_pages_eq s f pg) | simpl; lia].
  simpl. rewrite decide_True by lia.
  rewrite Unpin_fresh.
  - simpl. split; [reflexivity |]. simpl.
    unfold LRU.Pin. rewrite decide_True by done. simpl.
    rewrite erase_node_filter by done. split; [done |].
    rewrite list_insert_insert_eq.
    replace (set_pin_count (pin_count_ pg + 1 - 1) (set_pin_count (pin_count_ pg + 1) pg))
      with pg by (destruct pg; unfold set_pin_count; simpl; f_equal; lia).
    by rewrite list_insert_id.
  - unfold LRU.Pin. rewrite decide_True by done. simpl.
    rewrite elem_of_difference, elem_of_singleton. tauto.
  - unfold LRU.Pin, LRU.Size in *. rewrite decide_True by done. simpl.
    rewrite erase_node_filter by done.
    apply Nat.lt_le_trans with (length (LRU.list_frame_id (replacer_ s))); [| done].
    apply (length_filter_lt _ _ f); [by apply Hkeys | intros Hc; by apply Hc].
Qed.

End FetchUnpin.


(** Pages 0 and 1 in frames 0 and 1 of a pool of two, both unpinned, page 0
    first. *)
Lemma FetchPageImpl_then_UnpinPageImpl_refreshes_witness :
  ∃ s s1 s2,
    perform_all (DM := file_disk) (BufferPoolManager_new 2 [])
      [new_page; new_page; unpin_page 0 false; unpin_page 1 false] = Some s ∧
    LRU.list_frame_id (replacer_ s) = [1; 0] ∧
    FetchPageImpl (DM := file_disk) s 0 = Some (Some 0, s1) ∧
    UnpinPageImpl s1 0 false = Some (true, s2) ∧
    LRU.list_frame_id (replacer_ s2) = [0; 1].
Proof.
  eexists. 
  assert (Hrun : perform_all (DM := file_disk) (BufferPoolManager_new 2 [])
                   [new_page; new_page; unpin_page 0 false; unpin_page 1 false]
                 = Some (mkBPM 2 [mkPage zero_data 0 0 false; mkPage zero_data 1 0 false]
                           (LRU.mkLRU [1; 0] ({[1]} ∪ ({[0]} ∪ ∅)) 2) []
                           (<[1 := 1]> (<[0 := 0]> ∅)) false
                           [CallWritePage 1 zero_data; CallAllocatePage 1;
                            CallWritePage 0 zero_data; CallAllocatePage 0]))
    by (vm_compute; reflexivity).
  destruct (FetchPageImpl_then_UnpinPageImpl_refreshes (DM := file_disk)
              (mkBPM 2 [mkPage zero_data 0 0 false; mkPage zero_data 1 0 false]
                 (LRU.mkLRU [1; 0] ({[1]} ∪ ({[0]} ∪ ∅)) 2) []
                 (<[1 := 1]> (<[0 := 0]> ∅)) false
                 [CallWritePage 1 zero_data; CallAllocatePage 1;
                  CallWritePage 0 zero_data; CallAllocatePage 0])
              0 0 (mkPage zero_data 0 0 false))
    as (s1 & s2 & Hfetch & Hunpin & Hlist & _).
  - reflexivity.
  - reflexivity.
  - reflexivity.
  - reflexivity.
  - pose proof replacer_1_0_coherent as [Hnd Hkeys]. split; [exact Hnd | exact Hkeys].
  - unfold LRU.Size. simpl. lia.
  - simpl. not_tracked.
  - exists s1, s2. split_and!; [exact Hrun | reflexivity | exact Hfetch | exact Hunpin |].
    rewrite Hlist. reflexivity.
Defined.
